(** * dettrace: the tracing core (src/execution.cpp)

    A shallow embedding of [execution]: the supervisor loop [runProgram], the
    event demultiplexer [getNextEvent], the pre/post system-call hooks, the
    fork reconciler and the exit handler, together with the properties the
    specification states about them.

    The C++ class mutates its own fields and talks to the kernel through
    [ptrace] and [waitpid].  Both are made explicit here: every member
    function is a computation over a [world], which pairs the fields of the
    [execution] object with a scripted kernel, and either returns a value or
    halts (a C++ exception, undefined behaviour, or a [waitpid] that never
    returns).  Logging is not modelled: [log.writeToLog], [setPadding] and
    [unsetPadding] only write to stderr. *)

From stdpp Require Import base gmap list strings pretty.
From Stdlib Require Import ZArith Lia Ascii.

Local Open Scope Z_scope.

(** ** Platform constants (Linux, x86-64 system headers) *)

Definition SIGTRAP : Z := 5.
Definition INT16_MAX : Z := 32767.

Definition PTRACE_EVENT_FORK : Z := 1.
Definition PTRACE_EVENT_VFORK : Z := 2.
Definition PTRACE_EVENT_CLONE : Z := 3.
Definition PTRACE_EVENT_EXEC : Z := 4.
Definition PTRACE_EVENT_EXIT : Z := 6.
Definition PTRACE_EVENT_SECCOMP : Z := 7.
Definition PTRACE_EVENT_STOP : Z := 128.

(** The wait-status macros of <sys/wait.h> (glibc bits/waitstatus.h). *)
Definition WTERMSIG (status : Z) : Z := Z.land status 0x7f.
Definition WEXITSTATUS (status : Z) : Z := Z.shiftr (Z.land status 0xff00) 8.
Definition WSTOPSIG (status : Z) : Z := WEXITSTATUS status.
Definition WIFEXITED (status : Z) : bool := WTERMSIG status =? 0.
Definition WIFSTOPPED (status : Z) : bool := Z.land status 0xff =? 0x7f.

(** [(signed char) v] for [0 <= v < 256]. *)
Definition to_signed_char (v : Z) : Z := if 128 <=? v then v - 256 else v.

Definition WIFSIGNALED (status : Z) : bool :=
  0 <? Z.shiftr (to_signed_char (Z.land status 0x7f + 1)) 1.

(** Conversions the source performs implicitly on assignment. *)
Definition to_int (v : Z) : Z := (v + 2 ^ 31) mod 2 ^ 32 - 2 ^ 31.
Definition to_uint16 (v : Z) : Z := v mod 2 ^ 16.

(** [std::to_string(int)]. *)
Definition to_string (n : Z) : string := pretty n.

(** The numbers of the system calls that [getSystemCall] has a case for
    (<sys/syscall.h>, x86-64). *)
Module SYS.
Definition read : Z := 0.
Definition write : Z := 1.
Definition open : Z := 2.
Definition stat : Z := 4.
Definition fstat : Z := 5.
Definition lstat : Z := 6.
Definition poll : Z := 7.
Definition ioctl : Z := 16.
Definition writev : Z := 20.
Definition access : Z := 21.
Definition pipe : Z := 22.
Definition select : Z := 23.
Definition nanosleep : Z := 35.
Definition alarm : Z := 37.
Definition connect : Z := 42.
Definition sendto : Z := 44.
Definition clone : Z := 56.
Definition vfork : Z := 58.
Definition execve : Z := 59.
Definition uname : Z := 63.
Definition getdents : Z := 78.
Definition getcwd : Z := 79.
Definition chdir : Z := 80.
Definition unlink : Z := 87.
Definition readlink : Z := 89.
Definition chmod : Z := 90.
Definition gettimeofday : Z := 96.
Definition getrlimit : Z := 97.
Definition getrusage : Z := 98.
Definition sysinfo : Z := 99.
Definition statfs : Z := 137.
Definition fstatfs : Z := 138.
Definition time : Z := 201.
Definition futex : Z := 202.
Definition clock_gettime : Z := 228.
Definition tgkill : Z := 234.
Definition openat : Z := 257.
Definition newfstatat : Z := 262.
Definition unlinkat : Z := 263.
Definition pselect6 : Z := 270.
Definition set_robust_list : Z := 273.
Definition utimensat : Z := 280.
Definition prlimit64 : Z := 302.
Definition getrandom : Z := 318.
End SYS.

(** ** Data model *)

(** The event tags of [ptraceEvent] (an enum class). *)
Module ptraceEvent.
Inductive t : Set :=
| syscall | exit | terminatedBySignal | signal
| fork | vfork | clone | exec | seccomp.

#[global] Instance eq_dec : EqDecision t.
Proof. solve_decision. Defined.
End ptraceEvent.

(** The handler classes [getSystemCall] instantiates, one per [make_unique]. *)
Inductive handlerClass : Set :=
| accessSystemCall | alarmSystemCall | chdirSystemCall | chmodSystemCall
| clock_gettimeSystemCall | cloneSystemCall | connectSystemCall
| execveSystemCall | fstatSystemCall | newfstatatSystemCall
| fstatfsSystemCall | futexSystemCall | getcwdSystemCall | getdentsSystemCall
| getrandomSystemCall | getrlimitSystemCall | getrusageSystemCall
| gettimeofdaySystemCall | ioctlSystemCall | nanosleepSystemCall
| lstatSystemCall | openSystemCall | openatSystemCall | pipeSystemCall
| pselect6SystemCall | pollSystemCall | prlimit64SystemCall | readSystemCall
| readlinkSystemCall | sendtoSystemCall | selectSystemCall
| set_robust_listSystemCall | statfsSystemCall | statSystemCall
| sysinfoSystemCall | tgkillSystemCall | timeSystemCall | unameSystemCall
| unlinkSystemCall | unlinkatSystemCall | utimensatSystemCall
| vforkSystemCall | writeSystemCall.

(** A [systemCall] object: what the constructor is given, and its class. *)
Record systemCall : Set := mkSystemCall {
  syscallNumber : Z;
  syscallName : string;
  handler : handlerClass
}.

(** The per-tracee [state]. *)
Record state : Set := mkState {
  logicalTime : Z;
  signalToDeliver : Z;
  isPreExit : bool;
  systemcall : option systemCall
}.

(** Modelled from the spec: the constructor [state {log, pid}] of state.hpp,
    which is not under src/.  "signalToDeliver: the signal number to inject on
    the next resume, or 0 for none"; a fresh State has no pending signal, no
    current system call, and has intercepted nothing yet. *)
Definition freshState (pid : Z) : state :=
  {| logicalTime := 0; signalToDeliver := 0; isPreExit := false;
     systemcall := None |}.

(** The registers the core reads through the [ptracer] object. *)
Record ptracer : Set := mkPtracer { orig_rax : Z }.

(** The fields of the [execution] object. *)
Record execution : Type := mkExecution {
  nextPid : Z;
  tracer : ptracer;
  debugLevel : Z;
  states : gmap Z state;
  processHier : list Z;         (* std::stack, top first *)
  traceesPid : Z;
  exitLoop : bool
}.

(** ** The kernel, as the supervisor sees it *)

(** One answer of [waitpid]: the pid it returns ([-1] on failure, with the
    text of [strerror(errno)]), the status word, and what the stopped tracee
    then exposes to [PTRACE_GETEVENTMSG] and [PTRACE_GETREGS]. *)
Record stop : Set := mkStop {
  stop_pid : Z;
  stop_status : Z;
  stop_msg : Z;
  stop_orig_rax : Z;
  stop_strerror : string
}.

Inductive resumeMode : Set := PTRACE_CONT | PTRACE_SYSCALL.

(** One resuming [ptrace] request: mode, target and injected signal.
    [res_next] is not an argument of [ptrace]: it notes the value the
    supervisor's [nextPid] had when the request was issued, so that
    properties can say whose pending signal a request carries. *)
Record resume : Set := mkResume {
  res_mode : resumeMode;
  res_pid : Z;
  res_sig : Z;
  res_next : Z
}.

(** [script] holds the answers the kernel will give to the successive
    [waitpid] calls, [lastStop] the most recent one, and [resumed] the
    resume requests issued so far, newest first. *)
Record kernel : Set := mkKernel {
  script : list stop;
  lastStop : stop;
  resumed : list resume
}.

Record world : Type := mkWorld { exe : execution; os : kernel }.

(** ** Computations *)

Inductive halt : Set :=
| runtime_error (what : string)    (* throw runtime_error(what) *)
| out_of_range                     (* std::map::at on a missing key *)
| undefined_behaviour              (* array read outside its bounds *)
| blocked.                         (* waitpid never returns *)

Inductive outcome (A : Type) : Type :=
| Ret (a : A) (w : world)
| Halt (h : halt) (w : world).
Arguments Ret {A} a w.
Arguments Halt {A} h w.

Definition M (A : Type) : Type := world → outcome A.

#[global] Instance M_ret : MRet M := λ A a w, Ret a w.
#[global] Instance M_bind : MBind M := λ A B f m w,
  match m w with
  | Ret a w' => f a w'
  | Halt h w' => Halt h w'
  end.

Definition throw {A} (h : halt) : M A := λ w, Halt h w.
Definition gets {A} (f : execution → A) : M A := λ w, Ret (f (exe w)) w.
Definition modify (f : execution → execution) : M unit :=
  λ w, Ret tt {| exe := f (exe w); os := os w |}.

Definition final {A} (o : outcome A) : world :=
  match o with Ret _ w => w | Halt _ w => w end.

(** Field assignments. *)
Definition set_nextPid (p : Z) (e : execution) : execution :=
  {| nextPid := p; tracer := tracer e; debugLevel := debugLevel e;
     states := states e; processHier := processHier e;
     traceesPid := traceesPid e; exitLoop := exitLoop e |}.
Definition set_tracer (t : ptracer) (e : execution) : execution :=
  {| nextPid := nextPid e; tracer := t; debugLevel := debugLevel e;
     states := states e; processHier := processHier e;
     traceesPid := traceesPid e; exitLoop := exitLoop e |}.
Definition set_states (m : gmap Z state) (e : execution) : execution :=
  {| nextPid := nextPid e; tracer := tracer e; debugLevel := debugLevel e;
     states := m; processHier := processHier e;
     traceesPid := traceesPid e; exitLoop := exitLoop e |}.
Definition set_processHier (h : list Z) (e : execution) : execution :=
  {| nextPid := nextPid e; tracer := tracer e; debugLevel := debugLevel e;
     states := states e; processHier := h;
     traceesPid := traceesPid e; exitLoop := exitLoop e |}.
Definition set_traceesPid (p : Z) (e : execution) : execution :=
  {| nextPid := nextPid e; tracer := tracer e; debugLevel := debugLevel e;
     states := states e; processHier := processHier e;
     traceesPid := p; exitLoop := exitLoop e |}.
Definition set_exitLoop (b : bool) (e : execution) : execution :=
  {| nextPid := nextPid e; tracer := tracer e; debugLevel := debugLevel e;
     states := states e; processHier := processHier e;
     traceesPid := traceesPid e; exitLoop := b |}.

Definition set_signalToDeliver (n : Z) (s : state) : state :=
  {| logicalTime := logicalTime s; signalToDeliver := n;
     isPreExit := isPreExit s; systemcall := systemcall s |}.
Definition set_isPreExit (b : bool) (s : state) : state :=
  {| logicalTime := logicalTime s; signalToDeliver := signalToDeliver s;
     isPreExit := b; systemcall := systemcall s |}.
Definition set_systemcall (c : option systemCall) (s : state) : state :=
  {| logicalTime := logicalTime s; signalToDeliver := signalToDeliver s;
     isPreExit := isPreExit s; systemcall := c |}.

(** [states.at(pid)]: throws [std::out_of_range] on a missing key. *)
Definition states_at (pid : Z) : M state := λ w,
  match states (exe w) !! pid with
  | Some s => Ret s w
  | None => Halt out_of_range w
  end.

(** An assignment through the reference [states.at(pid)]. *)
Definition states_update (pid : Z) (f : state → state) : M unit :=
  s ← states_at pid; modify (λ e, set_states (<[pid := f s]> (states e)) e).

(** [states.emplace(pid, s)]: inserts only when the key is absent. *)
Definition emplace (pid : Z) (s : state) (m : gmap Z state) : gmap Z state :=
  match m !! pid with
  | Some _ => m
  | None => <[pid := s]> m
  end.

(** Modelled from the spec: the tracer primitive of ptracer.hpp/.cpp, which
    is not under src/: "resume(tid, mode, signal)", "readRegisters(tid)",
    "getEventMessage(tid)", "getSyscallNumber()".  The requests are taken to
    succeed.  A resume request is put on the kernel's record; the event
    message and the registers are those of the most recent stop. *)
Definition doPtrace_resume (mode : resumeMode) (pid sig : Z) : M unit := λ w,
  Ret tt {| exe := exe w;
            os := {| script := script (os w); lastStop := lastStop (os w);
                     resumed := mkResume mode pid sig (nextPid (exe w))
                                :: resumed (os w) |} |}.

Definition getEventMessage : M Z := λ w, Ret (stop_msg (lastStop (os w))) w.

Definition updateState (pid : Z) : M unit := λ w,
  Ret tt {| exe := set_tracer (mkPtracer (stop_orig_rax (lastStop (os w))))
                              (exe w);
            os := os w |}.

Definition getSystemCallNumber : M Z := gets (λ e, orig_rax (tracer e)).

(** [waitpid(pid, &status, 0)]: the next answer of the script, whatever
    [pid] was asked for; with no answer left the call never returns. *)
Definition waitpid (pid : Z) : M stop := λ w,
  match script (os w) with
  | [] => Halt blocked w
  | s :: rest =>
      Ret s {| exe := exe w;
               os := {| script := rest; lastStop := s;
                        resumed := resumed (os w) |} |}
  end.

(** What a handler's hook hands back: a result together with the State and
    the registers as the hook left them, or an exception. *)
Inductive hooked (A : Type) : Type :=
| Hooked (a : A) (s : state) (t : ptracer)
| HookThrows (what : string).
Arguments Hooked {A} a s t.
Arguments HookThrows {A} what.

Definition nl : string := String "010"%char EmptyString.

(** The cases of the [switch] in [getSystemCall], in source order. *)
Definition dispatchTable : list (Z * handlerClass) :=
  [ (SYS.access, accessSystemCall); (SYS.alarm, alarmSystemCall);
    (SYS.chdir, chdirSystemCall); (SYS.chmod, chmodSystemCall);
    (SYS.clock_gettime, clock_gettimeSystemCall);
    (SYS.clone, cloneSystemCall); (SYS.connect, connectSystemCall);
    (SYS.execve, execveSystemCall); (SYS.fstat, fstatSystemCall);
    (SYS.newfstatat, newfstatatSystemCall);
    (SYS.fstatfs, fstatfsSystemCall); (SYS.futex, futexSystemCall);
    (SYS.getcwd, getcwdSystemCall); (SYS.getdents, getdentsSystemCall);
    (SYS.getrandom, getrandomSystemCall);
    (SYS.getrlimit, getrlimitSystemCall);
    (SYS.getrusage, getrusageSystemCall);
    (SYS.gettimeofday, gettimeofdaySystemCall);
    (SYS.ioctl, ioctlSystemCall); (SYS.nanosleep, nanosleepSystemCall);
    (SYS.lstat, lstatSystemCall); (SYS.open, openSystemCall);
    (SYS.openat, openatSystemCall); (SYS.pipe, pipeSystemCall);
    (SYS.pselect6, pselect6SystemCall); (SYS.poll, pollSystemCall);
    (SYS.prlimit64, prlimit64SystemCall); (SYS.read, readSystemCall);
    (SYS.readlink, readlinkSystemCall); (SYS.sendto, sendtoSystemCall);
    (SYS.select, selectSystemCall);
    (SYS.set_robust_list, set_robust_listSystemCall);
    (SYS.statfs, statfsSystemCall); (SYS.stat, statSystemCall);
    (SYS.sysinfo, sysinfoSystemCall); (SYS.tgkill, tgkillSystemCall);
    (SYS.time, timeSystemCall); (SYS.uname, unameSystemCall);
    (SYS.unlink, unlinkSystemCall); (SYS.unlinkat, unlinkatSystemCall);
    (SYS.utimensat, utimensatSystemCall); (SYS.vfork, vforkSystemCall);
    (SYS.write, writeSystemCall); (SYS.writev, writeSystemCall) ].

(** The case label a [switch] on [n] jumps to, if any. *)
Fixpoint switch_case (n : Z) (cases : list (Z * handlerClass))
  : option handlerClass :=
  match cases with
  | [] => None
  | (k, c) :: rest => if n =? k then Some c else switch_case n rest
  end.

(** [unique_ptr<systemCall> execution::getSystemCall(int, string)] *)
Definition getSystemCall (syscallNumber : Z) (syscallName : string)
  : M systemCall :=
  match switch_case syscallNumber dispatchTable with
  | Some c => mret (mkSystemCall syscallNumber syscallName c)
  | None =>
      throw (runtime_error ("Missing case for system call: " +:+ syscallName
                            +:+ " this is a bug!"))
  end.

(** [void execution::handleExit()] *)
Definition handleExit : M unit :=
  h ← gets processHier;
  match h with
  | [] => modify (set_exitLoop true)
  | top :: rest =>
      t ← gets traceesPid;
      modify (λ e, set_states (delete t (states e)) e);;
      modify (set_nextPid top);;
      modify (set_processHier rest)
  end.

(** [void execution::handleSignal(int sigNum)] *)
Definition handleSignal (sigNum : Z) : M unit :=
  t ← gets traceesPid;
  states_update t (set_signalToDeliver sigNum).

(** [void execution::handleClone()] and [handleExecve()] only log. *)
Definition handleClone : M unit := mret tt.
Definition handleExecve : M unit := mret tt.

(** [currState.systemcall->...]: the handler the State points to; the
    pointer is null until a pre-hook has stored one. *)
Definition current_systemcall (cur : Z) : M systemCall :=
  s ← states_at cur;
  match systemcall s with
  | Some c => mret c
  | None => throw undefined_behaviour
  end.

(** A call of a handler's hook on [(currState, tracer)]. *)
Definition call_hook {A} (cur : Z) (h : state → ptracer → hooked A) : M A :=
  s ← states_at cur;
  t ← gets tracer;
  match h s t with
  | Hooked a s' t' =>
      modify (λ e, set_tracer t' (set_states (<[cur := s']> (states e)) e));;
      mret a
  | HookThrows what => throw (runtime_error what)
  end.

(** What the core is compiled against and is not under src/. *)
Class platform : Type := mkPlatform {
  (** [ptracer::isPtraceEvent(status, event)] *)
  isPtraceEvent : Z → Z → bool;
  (** systemCallList.hpp: the table of system-call names and its size *)
  SYSTEM_CALL_COUNT : Z;
  systemCallMappings : list string;
  (** [LINUX_VERSION_CODE < KERNEL_VERSION(4,8,0)] *)
  oldKernel : bool;
  (** the handlers' [handleDetPre] and [handleDetPost] *)
  handleDetPre : systemCall → state → ptracer → hooked bool;
  handleDetPost : systemCall → state → ptracer → hooked unit
}.

Section Execution.
Context {P : platform}.

(** [systemCallMappings[i]]: reading outside the array is undefined. *)
Definition systemCallMappings_at (i : Z) : M string :=
  if i <? 0 then throw undefined_behaviour
  else match systemCallMappings !! Z.to_nat i with
       | Some name => mret name
       | None => throw undefined_behaviour
       end.

(** [ptraceEvent execution::getNextEvent(pid_t currentPid,
      pid_t& traceesPid, int& status, bool ptraceSystemcall)];
    the two reference parameters are the field [traceesPid] and the
    caller's local [status], which is returned with the event. *)
Definition getNextEvent (currentPid : Z) (ptraceSystemcall : bool)
  : M (ptraceEvent.t * Z) :=
  n ← gets nextPid;
  s ← states_at n;
  let signalToDeliver := signalToDeliver s in
  states_update n (set_signalToDeliver 0);;
  doPtrace_resume (if ptraceSystemcall then PTRACE_SYSCALL else PTRACE_CONT)
                  currentPid signalToDeliver;;
  r ← waitpid (-1);
  modify (set_traceesPid (stop_pid r));;
  let status := stop_status r in
  if stop_pid r =? -1 then
    throw (runtime_error ("waitpid failed:" +:+ stop_strerror r))
  else if WIFEXITED status then mret (ptraceEvent.exit, status)
  else if isPtraceEvent status PTRACE_EVENT_EXEC then
    mret (ptraceEvent.exec, status)
  else if isPtraceEvent status PTRACE_EVENT_CLONE then
    mret (ptraceEvent.clone, status)
  else if isPtraceEvent status PTRACE_EVENT_VFORK then
    mret (ptraceEvent.vfork, status)
  else if isPtraceEvent status PTRACE_EVENT_FORK then
    mret (ptraceEvent.fork, status)
  else if isPtraceEvent status PTRACE_EVENT_STOP then
    throw (runtime_error ("Ptrace event stop." +:+ nl))
  else if isPtraceEvent status PTRACE_EVENT_EXIT then
    throw (runtime_error ("Ptrace event exit." +:+ nl))
  else if isPtraceEvent status PTRACE_EVENT_SECCOMP then
    mret (ptraceEvent.seccomp, status)
  else if WIFSTOPPED status && (WSTOPSIG status =? Z.lor SIGTRAP 0x80) then
    mret (ptraceEvent.syscall, status)
  else if WIFSTOPPED status then mret (ptraceEvent.signal, status)
  else if WIFSIGNALED status then
    mret (ptraceEvent.terminatedBySignal, status)
  else throw (runtime_error "Uknown event on dettrace::getNextEvent()").

(** [pid_t execution::handleForkEvent()] *)
Definition handleForkEvent : M Z :=
  newChildPid ← getEventMessage;
  parentsPid ← gets traceesPid;
  modify (λ e, set_processHier (parentsPid :: processHier e) e);;
  modify (λ e, set_states (emplace newChildPid (freshState newChildPid)
                                   (states e)) e);;
  mret newChildPid.

(** [void execution::handleForkSignal()] *)
Definition handleForkSignal : M unit :=
  r ← waitpid (-1);
  modify (set_traceesPid (stop_pid r));;
  let status := stop_status r in
  if stop_pid r =? -1 then
    throw (runtime_error ("waitpid failed:" +:+ stop_strerror r))
  else if negb (isPtraceEvent status PTRACE_EVENT_FORK)
          && negb (isPtraceEvent status PTRACE_EVENT_VFORK) then
    throw (runtime_error ("Expected fork or vfork event!" +:+ nl))
  else mret tt.

(** [void execution::handleFork(ptraceEvent event)] *)
Definition handleFork (event : ptraceEvent.t) : M unit :=
  newChildPid ←
    (if bool_decide (event = ptraceEvent.fork)
        || bool_decide (event = ptraceEvent.vfork) then
       newChildPid ← handleForkEvent;
       r ← waitpid newChildPid;
       let retPid := stop_pid r in
       if retPid =? -1 then
         throw (runtime_error ("waitpid failed:" +:+ stop_strerror r))
       else if negb (retPid =? newChildPid) then
         throw (runtime_error
                  "wait call return pid does not match new child's pid.")
       else mret newChildPid
     else
       if negb (bool_decide (event = ptraceEvent.signal)) then
         throw (runtime_error "Expected signal after fork/vfork event!")
       else
         handleForkSignal;;
         handleForkEvent);
  modify (set_nextPid newChildPid).

(** The condition of the range check in [handlePreSystemCall]. *)
Definition unknownSystemCallNumber (syscallNum : Z) : bool :=
  (syscallNum <? 0) || (SYSTEM_CALL_COUNT <? syscallNum).

(** [handlePreSystemCall] from its "Print!" line on: the pre-hook, and the
    fork reconciler for fork, vfork and clone.  The reference [currState]
    is the registry entry under the key [cur]. *)
Definition interceptSystemCall (cur : Z) : M bool :=
  c ← current_systemcall cur;
  let systemCall := syscallName c in
  c ← current_systemcall cur;
  callPostHook ← call_hook cur (handleDetPre c);
  (if oldKernel then states_update cur (set_isPreExit true)
   else mret tt);;
  if bool_decide (systemCall = "fork")
     || bool_decide (systemCall = "vfork")
     || bool_decide (systemCall = "clone") then
    (if oldKernel then
       t ← gets traceesPid;
       getNextEvent t true;;
       states_update cur (set_isPreExit false)
     else mret tt);;
    t ← gets traceesPid;
    '(e, _) ← getNextEvent t false;
    handleFork e;;
    mret false
  else if oldKernel then mret true
  else
    d ← gets debugLevel;
    mret (if 4 <=? d then true else callPostHook).

(** [bool execution::handlePreSystemCall(state& currState)] *)
Definition handlePreSystemCall (cur : Z) : M bool :=
  n ← getSystemCallNumber;
  let syscallNum := to_int n in
  name ← systemCallMappings_at syscallNum;
  c ← getSystemCall syscallNum name;
  states_update cur (set_systemcall (Some c));;
  if unknownSystemCallNumber syscallNum then
    throw (runtime_error ("Unkown system call number: "
                          +:+ to_string syscallNum))
  else interceptSystemCall cur.

(** [void execution::handlePostSystemCall(state& currState)] *)
Definition handlePostSystemCall (cur : Z) : M unit :=
  c ← current_systemcall cur;
  call_hook cur (handleDetPost c).

(** [bool execution::handleSeccomp()] *)
Definition handleSeccomp : M bool :=
  t ← gets traceesPid;
  msg ← getEventMessage;
  let syscallNum := to_uint16 msg in
  if syscallNum =? INT16_MAX then
    updateState t;;
    n ← getSystemCallNumber;
    let syscallNum := to_uint16 n in
    name ← systemCallMappings_at syscallNum;
    throw (runtime_error ("No filter rule for system call: " +:+ name))
  else
    updateState t;;
    states_at t;;
    handlePreSystemCall t.

(** The chain of [if(ret == ...)] in the body of the [while] loop of
    [runProgram]: what is done for each event tag.  The value returned is
    the local [callPostHook] as the turn leaves it.  [t] is [traceesPid]
    throughout. *)
Definition dispatch (ret : ptraceEvent.t) (status : Z) (callPostHook : bool)
  : M bool :=
  t ← gets traceesPid;
  if bool_decide (ret = ptraceEvent.seccomp) then handleSeccomp
  else if bool_decide (ret = ptraceEvent.syscall) then
    let postHook : M bool :=
      updateState t;;
      states_at t;;
      handlePostSystemCall t;;
      mret false in
    if oldKernel then
      currentState ← states_at t;
      if isPreExit currentState then
        states_update t (set_isPreExit false);;
        mret true
      else postHook
    else postHook
  else if bool_decide (ret = ptraceEvent.terminatedBySignal) then
    handleExit;; mret callPostHook
  else if bool_decide (ret = ptraceEvent.exit) then
    handleExit;; mret callPostHook
  else if bool_decide (ret = ptraceEvent.fork)
          || bool_decide (ret = ptraceEvent.vfork) then
    mret callPostHook
  else if bool_decide (ret = ptraceEvent.clone) then
    handleClone;; mret callPostHook
  else if bool_decide (ret = ptraceEvent.exec) then
    handleExecve;; mret callPostHook
  else if bool_decide (ret = ptraceEvent.signal) then
    handleSignal (WSTOPSIG status);; mret callPostHook
  else
    throw (runtime_error (to_string t +:+
             " Uknown return value for ptracer::getNextEvent()" +:+ nl)).

(** One turn of the [while] loop of [runProgram]: the next event is
    awaited, [nextPid] becomes the tracee that stopped, and the event is
    dispatched. *)
Definition runIteration (callPostHook : bool) : M bool :=
  n ← gets nextPid;
  '(ret, status) ← getNextEvent n callPostHook;
  t ← gets traceesPid;
  modify (set_nextPid t);;
  dispatch ret status callPostHook.

(** The [while(! exitLoop)] loop, for at most [fuel] turns; [None] when
    the turns run out before the loop is left. *)
Fixpoint runLoop (fuel : nat) (callPostHook : bool) (w : world)
  : option (outcome unit) :=
  match fuel with
  | O => None
  | S fuel' =>
      if exitLoop (exe w) then Some (Ret tt w)
      else match runIteration callPostHook w with
           | Ret callPostHook' w' => runLoop fuel' callPostHook' w'
           | Halt h w' => Some (Halt h w')
           end
  end.

(** [void execution::runProgram()].  Every turn takes at least one answer
    off the kernel's script, so one turn more than the script is long
    always suffices ([runLoop_total] below) and the default is never
    used. *)
Definition runProgram : M unit :=
  λ w, default (Halt blocked w)
               (runLoop (S (length (script (os w)))) false w).

End Execution.

(** [execution::execution(int debugLevel, pid_t startingPid)]: the registry
    holds the first process only.  The fields the constructor does not list
    ([exitLoop], [traceesPid], the tracer's registers) come from
    execution.hpp, which is not under src/; the loop requires [exitLoop] to
    start false, and [traceesPid] is written before it is first read. *)
Definition execution_init (debugLevel startingPid : Z) : execution :=
  {| nextPid := startingPid;
     tracer := mkPtracer 0;
     debugLevel := debugLevel;
     states := {[ startingPid := freshState startingPid ]};
     processHier := [];
     traceesPid := startingPid;
     exitLoop := false |}.

(** ** A concrete platform, for running the model *)
Module Linux.

(** Modelled from the spec: [ptracer::isPtraceEvent] (ptracer.cpp is not
    under src/).  "ptrace event bits are carried in the high bits of the
    status word": an event-stop has [status >> 8] equal to
    [SIGTRAP | event << 8], the test ptrace(2) gives. *)
Definition isPtraceEvent (status event : Z) : bool :=
  Z.shiftr status 8 =? Z.lor SIGTRAP (Z.shiftl event 8).

(** The x86-64 system-call name table, [read] (0) to [pwritev2] (328). *)
Definition systemCallMappings : list string :=
  [ "read"; "write"; "open"; "close"; "stat"; "fstat"; "lstat"; "poll";
    "lseek"; "mmap"; "mprotect"; "munmap"; "brk"; "rt_sigaction";
    "rt_sigprocmask"; "rt_sigreturn"; "ioctl"; "pread64"; "pwrite64";
    "readv"; "writev"; "access"; "pipe"; "select"; "sched_yield"; "mremap";
    "msync"; "mincore"; "madvise"; "shmget"; "shmat"; "shmctl"; "dup";
    "dup2"; "pause"; "nanosleep"; "getitimer"; "alarm"; "setitimer";
    "getpid"; "sendfile"; "socket"; "connect"; "accept"; "sendto";
    "recvfrom"; "sendmsg"; "recvmsg"; "shutdown"; "bind"; "listen";
    "getsockname"; "getpeername"; "socketpair"; "setsockopt"; "getsockopt";
    "clone"; "fork"; "vfork"; "execve"; "exit"; "wait4"; "kill"; "uname";
    "semget"; "semop"; "semctl"; "shmdt"; "msgget"; "msgsnd"; "msgrcv";
    "msgctl"; "fcntl"; "flock"; "fsync"; "fdatasync"; "truncate";
    "ftruncate"; "getdents"; "getcwd"; "chdir"; "fchdir"; "rename"; "mkdir";
    "rmdir"; "creat"; "link"; "unlink"; "symlink"; "readlink"; "chmod";
    "fchmod"; "chown"; "fchown"; "lchown"; "umask"; "gettimeofday";
    "getrlimit"; "getrusage"; "sysinfo"; "times"; "ptrace"; "getuid";
    "syslog"; "getgid"; "setuid"; "setgid"; "geteuid"; "getegid"; "setpgid";
    "getppid"; "getpgrp"; "setsid"; "setreuid"; "setregid"; "getgroups";
    "setgroups"; "setresuid"; "getresuid"; "setresgid"; "getresgid";
    "getpgid"; "setfsuid"; "setfsgid"; "getsid"; "capget"; "capset";
    "rt_sigpending"; "rt_sigtimedwait"; "rt_sigqueueinfo"; "rt_sigsuspend";
    "sigaltstack"; "utime"; "mknod"; "uselib"; "personality"; "ustat";
    "statfs"; "fstatfs"; "sysfs"; "getpriority"; "setpriority";
    "sched_setparam"; "sched_getparam"; "sched_setscheduler";
    "sched_getscheduler"; "sched_get_priority_max"; "sched_get_priority_min";
    "sched_rr_get_interval"; "mlock"; "munlock"; "mlockall"; "munlockall";
    "vhangup"; "modify_ldt"; "pivot_root"; "_sysctl"; "prctl"; "arch_prctl";
    "adjtimex"; "setrlimit"; "chroot"; "sync"; "acct"; "settimeofday";
    "mount"; "umount2"; "swapon"; "swapoff"; "reboot"; "sethostname";
    "setdomainname"; "iopl"; "ioperm"; "create_module"; "init_module";
    "delete_module"; "get_kernel_syms"; "query_module"; "quotactl";
    "nfsservctl"; "getpmsg"; "putpmsg"; "afs_syscall"; "tuxcall"; "security";
    "gettid"; "readahead"; "setxattr"; "lsetxattr"; "fsetxattr"; "getxattr";
    "lgetxattr"; "fgetxattr"; "listxattr"; "llistxattr"; "flistxattr";
    "removexattr"; "lremovexattr"; "fremovexattr"; "tkill"; "time"; "futex";
    "sched_setaffinity"; "sched_getaffinity"; "set_thread_area"; "io_setup";
    "io_destroy"; "io_getevents"; "io_submit"; "io_cancel";
    "get_thread_area"; "lookup_dcookie"; "epoll_create"; "epoll_ctl_old";
    "epoll_wait_old"; "remap_file_pages"; "getdents64"; "set_tid_address";
    "restart_syscall"; "semtimedop"; "fadvise64"; "timer_create";
    "timer_settime"; "timer_gettime"; "timer_getoverrun"; "timer_delete";
    "clock_settime"; "clock_gettime"; "clock_getres"; "clock_nanosleep";
    "exit_group"; "epoll_wait"; "epoll_ctl"; "tgkill"; "utimes"; "vserver";
    "mbind"; "set_mempolicy"; "get_mempolicy"; "mq_open"; "mq_unlink";
    "mq_timedsend"; "mq_timedreceive"; "mq_notify"; "mq_getsetattr";
    "kexec_load"; "waitid"; "add_key"; "request_key"; "keyctl"; "ioprio_set";
    "ioprio_get"; "inotify_init"; "inotify_add_watch"; "inotify_rm_watch";
    "migrate_pages"; "openat"; "mkdirat"; "mknodat"; "fchownat"; "futimesat";
    "newfstatat"; "unlinkat"; "renameat"; "linkat"; "symlinkat";
    "readlinkat"; "fchmodat"; "faccessat"; "pselect6"; "ppoll"; "unshare";
    "set_robust_list"; "get_robust_list"; "splice"; "tee"; "sync_file_range";
    "vmsplice"; "move_pages"; "utimensat"; "epoll_pwait"; "signalfd";
    "timerfd_create"; "eventfd"; "fallocate"; "timerfd_settime";
    "timerfd_gettime"; "accept4"; "signalfd4"; "eventfd2"; "epoll_create1";
    "dup3"; "pipe2"; "inotify_init1"; "preadv"; "pwritev";
    "rt_tgsigqueueinfo"; "perf_event_open"; "recvmmsg"; "fanotify_init";
    "fanotify_mark"; "prlimit64"; "name_to_handle_at"; "open_by_handle_at";
    "clock_adjtime"; "syncfs"; "sendmmsg"; "setns"; "getcpu";
    "process_vm_readv"; "process_vm_writev"; "kcmp"; "finit_module";
    "sched_setattr"; "sched_getattr"; "renameat2"; "seccomp"; "getrandom";
    "memfd_create"; "kexec_file_load"; "bpf"; "execveat"; "userfaultfd";
    "membarrier"; "mlock2"; "copy_file_range"; "preadv2"; "pwritev2" ].

Definition SYSTEM_CALL_COUNT : Z := 329.

(** Handlers that leave the State and the registers alone; the pre-hook
    asks for a post-hook stop. *)
Definition handleDetPre (c : systemCall) (s : state) (t : ptracer)
  : hooked bool := Hooked true s t.
Definition handleDetPost (c : systemCall) (s : state) (t : ptracer)
  : hooked unit := Hooked tt s t.

(** A kernel of version 4.8 or later, and one before. *)
Definition recent : platform :=
  mkPlatform isPtraceEvent SYSTEM_CALL_COUNT systemCallMappings false
             handleDetPre handleDetPost.
Definition old : platform :=
  mkPlatform isPtraceEvent SYSTEM_CALL_COUNT systemCallMappings true
             handleDetPre handleDetPost.

(** Status words, as the kernel builds them. *)
Definition exited (code : Z) : Z := Z.shiftl code 8.
Definition killed (sig : Z) : Z := sig.
Definition stopped (sig : Z) : Z := Z.lor (Z.shiftl sig 8) 0x7f.
Definition event (ev : Z) : Z := stopped (Z.lor SIGTRAP (Z.shiftl ev 8)).
Definition syscall_stop : Z := stopped (Z.lor SIGTRAP 0x80).

(** A stop of [pid] with [status], with event message [msg] and
    [orig_rax] in its registers. *)
Definition stopOf (pid status msg rax : Z) : stop :=
  mkStop pid status msg rax EmptyString.

(** The world right after the constructor, with the kernel's script. *)
Definition boot (debugLevel startingPid : Z) (answers : list stop) : world :=
  {| exe := execution_init debugLevel startingPid;
     os := {| script := answers;
              lastStop := stopOf startingPid (stopped 19) 0 0;
              resumed := [] |} |}.

(** Scenario worlds.  The first tracee is process 1000. *)

(** Its only event is its exit with code 7. *)
Definition exit_only : world :=
  boot 0 1000 [stopOf 1000 (exited 7) 0 0].

(** It enters system call [n] (a seccomp stop) and then exits with [code]. *)
Definition one_syscall (n code : Z) : world :=
  boot 0 1000 [stopOf 1000 (event PTRACE_EVENT_SECCOMP) n n;
               stopOf 1000 (exited code) 0 0].

(** It is stopped by SIGUSR1 (10), and killed by it once it is delivered. *)
Definition signalled : world :=
  boot 0 1000 [stopOf 1000 (stopped 10) 0 0; stopOf 1000 (killed 10) 0 0].

(** It has stopped with [rax] as the number of its system call, and the
    registers have been read. *)
Definition stopped_in_syscall (rax : Z) : world :=
  {| exe := set_tracer (mkPtracer rax) (exe (boot 0 1000 []));
     os := os (boot 0 1000 []) |}.

(** It has forked process 1001 and the reconciler is about to run: the
    parent's fork event was drained first and the child's stop is still to
    come, or the other way round. *)
Definition fork_event_first : world :=
  {| exe := exe (boot 0 1000 []);
     os := {| script := [stopOf 1001 (stopped 19) 0 0];
              lastStop := stopOf 1000 (event PTRACE_EVENT_FORK) 1001 57;
              resumed := [] |} |}.


(** It makes one [read] (0), reports the stop at its exit, and exits; on a
    kernel before 4.8 the entry into the call is reported as well. *)
Definition one_read : world :=
  boot 0 1000 [stopOf 1000 (event PTRACE_EVENT_SECCOMP) 0 0;
               stopOf 1000 syscall_stop 0 0;
               stopOf 1000 (exited 0) 0 0].

Definition one_read_old : world :=
  boot 0 1000 [stopOf 1000 (event PTRACE_EVENT_SECCOMP) 0 0;
               stopOf 1000 syscall_stop 0 0;
               stopOf 1000 syscall_stop 0 0;
               stopOf 1000 (exited 0) 0 0].

(** It forks 1001 through [clone] (56); the child exits, the parent is
    stopped by SIGCHLD (17) and exits.  The parent's fork event and the
    child's first stop come in either order. *)
Definition fork_then_exit (event_first : bool) : world :=
  boot 0 1000
       ([stopOf 1000 (event PTRACE_EVENT_SECCOMP) 56 56]
        ++ (if event_first
            then [stopOf 1000 (event PTRACE_EVENT_FORK) 1001 56;
                  stopOf 1001 (stopped 19) 0 0]
            else [stopOf 1001 (stopped 19) 0 0;
                  stopOf 1000 (event PTRACE_EVENT_FORK) 1001 56])
        ++ [stopOf 1001 (exited 0) 0 0;
            stopOf 1000 (stopped 17) 0 0;
            stopOf 1000 (exited 0) 0 0]).

(** Its [clone] is reported by a clone event. *)
Definition clone_event : world :=
  boot 0 1000 [stopOf 1000 (event PTRACE_EVENT_SECCOMP) 56 56;
               stopOf 1000 (event PTRACE_EVENT_CLONE) 1001 56;
               stopOf 1001 (stopped 19) 0 0].

(** It has stopped at a seccomp event whose message is the sentinel 0x7FFF,
    with [rax] as the number of its system call. *)
Definition unfiltered_call (rax : Z) : world :=
  {| exe := set_traceesPid 1000 (exe (boot 0 1000 []));
     os := {| script := [];
              lastStop := stopOf 1000 (event PTRACE_EVENT_SECCOMP)
                                 INT16_MAX rax;
              resumed := [] |} |}.

(** Its [wait] fails: the kernel answers -1. *)
Definition wait_fails : world :=
  boot 0 1000 [mkStop (-1) 0 0 0 "No child processes"].

(** It forks 1001 through [clone] (56) and is killed (SIGKILL, 9) before the child reports
    anything more. *)
Definition parent_killed_first : world :=
  boot 0 1000 [stopOf 1000 (event PTRACE_EVENT_SECCOMP) 56 56;
               stopOf 1000 (event PTRACE_EVENT_FORK) 1001 56;
               stopOf 1001 (stopped 19) 0 0;
               stopOf 1000 (killed 9) 0 0].

(** The resume requests of a run, oldest first: mode, tracee, signal. *)
Definition requests (o : outcome unit) : list (resumeMode * Z * Z) :=
  reverse ((λ r, (res_mode r, res_pid r, res_sig r))
             <$> resumed (os (final o))).

End Linux.

(** ** The priority order of the specification (section 4.1, step 3)

    The classification as the specification words it: an ordered list of
    tests on the status word, each with its verdict; the first test that
    holds decides. *)
Inductive verdict : Set :=
| Tag (e : ptraceEvent.t)
| Fatal (what : string).

Definition spec_priority {P : platform} : list ((Z → bool) * verdict) :=
  [ (WIFEXITED, Tag ptraceEvent.exit);
    (λ st, isPtraceEvent st PTRACE_EVENT_EXEC, Tag ptraceEvent.exec);
    (λ st, isPtraceEvent st PTRACE_EVENT_CLONE, Tag ptraceEvent.clone);
    (λ st, isPtraceEvent st PTRACE_EVENT_VFORK, Tag ptraceEvent.vfork);
    (λ st, isPtraceEvent st PTRACE_EVENT_FORK, Tag ptraceEvent.fork);
    (λ st, isPtraceEvent st PTRACE_EVENT_STOP,
       Fatal ("Ptrace event stop." +:+ nl));
    (λ st, isPtraceEvent st PTRACE_EVENT_EXIT,
       Fatal ("Ptrace event exit." +:+ nl));
    (λ st, isPtraceEvent st PTRACE_EVENT_SECCOMP, Tag ptraceEvent.seccomp);
    (λ st, WIFSTOPPED st && (WSTOPSIG st =? Z.lor SIGTRAP 0x80),
       Tag ptraceEvent.syscall);
    (WIFSTOPPED, Tag ptraceEvent.signal);
    (WIFSIGNALED, Tag ptraceEvent.terminatedBySignal) ].

Fixpoint spec_first_match (tests : list ((Z → bool) * verdict)) (status : Z)
  : verdict :=
  match tests with
  | [] => Fatal "Uknown event on dettrace::getNextEvent()"
  | (test, v) :: rest =>
      if test status then v else spec_first_match rest status
  end.

(** The outcome a verdict stands for. *)
Definition verdict_outcome (v : verdict) (status : Z) (w : world)
  : outcome (ptraceEvent.t * Z) :=
  match v with
  | Tag e => Ret (e, status) w
  | Fatal what => Halt (runtime_error what) w
  end.

(** ** Vocabulary of the properties *)

(** The world [getNextEvent] leaves when the wait answers [r]: the slot of
    [nextPid] is cleared, the resume request is on record, [r] is taken off
    the script and [traceesPid] is the pid it names. *)
Definition resumed_and_waited (currentPid : Z) (ptraceSystemcall : bool)
           (s : state) (r : stop) (rest : list stop) (w : world) : world :=
  {| exe := set_traceesPid (stop_pid r)
              (set_states (<[nextPid (exe w) := set_signalToDeliver 0 s]>
                             (states (exe w))) (exe w));
     os := {| script := rest; lastStop := r;
              resumed :=
                mkResume (if ptraceSystemcall then PTRACE_SYSCALL
                          else PTRACE_CONT)
                         currentPid (signalToDeliver s) (nextPid (exe w))
                :: resumed (os w) |} |}.

(** The world in which a turn of the loop dispatches its event: [nextPid]
    has become the tracee that stopped. *)
Definition stopped_tracee_next (w : world) : world :=
  {| exe := set_nextPid (traceesPid (exe w)) (exe w); os := os w |}.

(** A stop that is a fork or vfork event-stop. *)
Definition is_fork_stop {P : platform} (r : stop) : bool :=
  isPtraceEvent (stop_status r) PTRACE_EVENT_FORK
  || isPtraceEvent (stop_status r) PTRACE_EVENT_VFORK.

(** The pending signal of a tracee, if it is registered. *)
Definition pending (w : world) (pid : Z) : option Z :=
  signalToDeliver <$> states (exe w) !! pid.

(** A message names a system call's number when the decimal numeral occurs
    in it. *)
Fixpoint occurs_in (sub s : string) : bool :=
  String.prefix sub s
  || match s with
     | EmptyString => false
     | String _ s' => occurs_in sub s'
     end.

Definition names_number (n : Z) (what : string) : bool :=
  occurs_in (to_string n) what.

(** The world in which the handler [c] has been stored in the [systemcall]
    field (the specification's currentSyscall) of the State under [cur]. *)
Definition handler_stored (cur : Z) (c : systemCall) (s : state) (w : world)
  : world :=
  {| exe := set_states (<[cur := set_systemcall (Some c) s]> (states (exe w)))
                       (exe w);
     os := os w |}.

(** A computation respects a relation when every run of it, finished or
    halted, leaves a world related to the one it started in. *)
Definition respects {A} (R : relation world) (m : M A) : Prop :=
  ∀ w, R w (final (m w)).

(** Resume requests are only added, kernel answers only taken. *)
Definition advances (w w' : world) : Prop :=
  (∃ newer, resumed (os w') = newer ++ resumed (os w))
  ∧ (∃ used, script (os w) = used ++ script (os w')).

(** ... and the termination flag is left as it was. *)
Definition steady (w w' : world) : Prop :=
  exitLoop (exe w') = exitLoop (exe w) ∧ advances w w'.

(** The registry only gains entries, each of them a fresh State. *)
Definition only_fresh_entries (w w' : world) : Prop :=
  (∀ p s, states (exe w) !! p = Some s → states (exe w') !! p = Some s)
  ∧ (∀ p s', states (exe w') !! p = Some s' → states (exe w) !! p = None →
             s' = freshState p).

(** A resume request injects the resumed tracee's own pending signal when
    it injects nothing, or when the slot read ([nextPid]'s) was that of the
    tracee resumed. *)
Definition own_signal (r : resume) : Prop :=
  res_sig r = 0 ∨ res_pid r = res_next r.

Definition log_sound (w : world) : Prop := Forall own_signal (resumed (os w)).

(** No tracee has a signal pending; none but [nextPid] has. *)
Definition none_pending (w : world) : Prop :=
  ∀ p s, states (exe w) !! p = Some s → signalToDeliver s = 0.

Definition others_quiet (w : world) : Prop :=
  ∀ p s, states (exe w) !! p = Some s → p ≠ nextPid (exe w) →
         signalToDeliver s = 0.

(** [wp m Q w]: run from [w] with a sound log, [m] keeps the log sound
    however it ends, and if it returns, [Q] holds of the result. *)
Definition wp {A} (m : M A) (Q : A → world → Prop) (w : world) : Prop :=
  log_sound w →
  log_sound (final (m w)) ∧ ∀ a w', m w = Ret a w' → Q a w'.

(** ** Vocabulary of the further properties *)

#[global] Instance handlerClass_eq_dec : EqDecision handlerClass.
Proof. solve_decision. Defined.

(** The names for which [handlePreSystemCall] runs the fork reconciler. *)
Definition is_fork_call (name : string) : bool :=
  bool_decide (name = "fork") || bool_decide (name = "vfork")
  || bool_decide (name = "clone").

(** The world in which [pid] is the tracee that has just stopped. *)
Definition stopped_as (pid : Z) (w : world) : world :=
  {| exe := set_traceesPid pid (exe w); os := os w |}.

(** Every tracee that was registered still is. *)
Definition keeps_entries (w w' : world) : Prop :=
  ∀ p, is_Some (states (exe w) !! p) → is_Some (states (exe w') !! p).

(** At most [n] tracees were pushed on the ancestor stack, none popped. *)
Definition pushes (n : nat) (w w' : world) : Prop :=
  ∃ pushed, processHier (exe w') = pushed ++ processHier (exe w)
            ∧ (length pushed ≤ n)%nat.

(** A resume request for the tracee that [nextPid] named. *)
Definition resumes_next (r : resume) : Prop := res_pid r = res_next r.

(** Only such requests were added to the record. *)
Definition resumed_next_only (w w' : world) : Prop :=
  ∃ newer, resumed (os w') = newer ++ resumed (os w)
           ∧ Forall resumes_next newer.

Definition same_target (w w' : world) : Prop :=
  nextPid (exe w') = nextPid (exe w)
  ∧ traceesPid (exe w') = traceesPid (exe w)
  ∧ resumed (os w') = resumed (os w).

Definition aligned (w : world) : Prop := nextPid (exe w) = traceesPid (exe w).

(** * Properties *)

(** ** Reasoning about computations *)

Lemma bind_unfold {A B} (m : M A) (f : A → M B) (w : world) :
  (m ≫= f) w = match m w with
               | Ret a w' => f a w'
               | Halt h w' => Halt h w'
               end.
Proof. reflexivity. Qed.

(** The dispatcher's table stays folded under [simpl]. *)
#[local] Arguments switch_case : simpl never.

(** Unfolds the primitive steps, leaving matches on the registry and on the
    kernel's script. *)
Ltac unfold_monad :=
  unfold states_update, states_at, waitpid, doPtrace_resume, getEventMessage,
    updateState, getSystemCallNumber, modify, gets, throw,
    mbind, M_bind, mret, M_ret in *.

(** ** Frames *)

#[local] Instance advances_preorder : PreOrder advances.
Proof.
  split.
  - intros w. split; exists []; reflexivity.
  - intros w1 w2 w3 [[n1 H1] [u1 G1]] [[n2 H2] [u2 G2]]. split.
    + exists (n2 ++ n1). rewrite H2, H1. apply app_assoc.
    + exists (u1 ++ u2). rewrite G1, G2. apply app_assoc.
Qed.

#[local] Instance steady_preorder : PreOrder steady.
Proof.
  split.
  - intros w. split; reflexivity.
  - intros w1 w2 w3 [E1 A1] [E2 A2]. split; [congruence | by etrans].
Qed.

Lemma steady_advances w w' : steady w w' → advances w w'.
Proof. intros [_ H]. exact H. Qed.

Section Respects.
Context (R : relation world) `{!PreOrder R}.

Lemma respects_bind {A B} (m : M A) (f : A → M B) :
  respects R m → (∀ a, respects R (f a)) → respects R (m ≫= f).
Proof.
  intros Hm Hf w. specialize (Hm w). rewrite bind_unfold.
  destruct (m w) as [a w1|h w1]; simpl in *; [| assumption].
  etrans; [exact Hm | apply Hf].
Qed.

Lemma respects_ret {A} (a : A) : respects R (mret a).
Proof. intros w. reflexivity. Qed.

Lemma respects_throw {A} (h : halt) : respects R (@throw A h).
Proof. intros w. reflexivity. Qed.

Lemma respects_gets {A} (f : execution → A) : respects R (gets f).
Proof. intros w. reflexivity. Qed.

Lemma respects_states_at pid : respects R (states_at pid).
Proof.
  intros w. unfold states_at. destruct (states (exe w) !! pid); reflexivity.
Qed.

Lemma respects_getEventMessage : respects R getEventMessage.
Proof. intros w. reflexivity. Qed.

Lemma respects_getSystemCall n name : respects R (getSystemCall n name).
Proof.
  intros w. unfold getSystemCall.
  destruct (switch_case n dispatchTable); reflexivity.
Qed.

Lemma respects_systemCallMappings_at `{platform} i :
  respects R (systemCallMappings_at i).
Proof.
  intros w. unfold systemCallMappings_at.
  destruct (i <? 0); [reflexivity |].
  destruct (systemCallMappings !! Z.to_nat i); reflexivity.
Qed.

Lemma respects_current_systemcall cur : respects R (current_systemcall cur).
Proof.
  unfold current_systemcall.
  apply respects_bind; [apply respects_states_at |].
  intros s.
  destruct (systemcall s); [apply respects_ret | apply respects_throw].
Qed.
End Respects.

Section Frames.
Context {P : platform}.

Lemma steady_modify (f : execution → execution) :
  (∀ e, exitLoop (f e) = exitLoop e) → respects steady (modify f).
Proof.
  intros Hf w. split; [apply Hf | split; exists []; reflexivity].
Qed.

Lemma steady_states_update pid f : respects steady (states_update pid f).
Proof.
  unfold states_update.
  apply respects_bind; [apply _ | apply respects_states_at; apply _ |].
  intros s. apply steady_modify. reflexivity.
Qed.

Lemma steady_doPtrace_resume mode pid sig :
  respects steady (doPtrace_resume mode pid sig).
Proof.
  intros w.
  split; [reflexivity | split; [eexists [_] | exists []]; reflexivity].
Qed.

Lemma steady_updateState pid : respects steady (updateState pid).
Proof. intros w. split; [reflexivity | split; exists []; reflexivity]. Qed.

Lemma steady_waitpid pid : respects steady (waitpid pid).
Proof.
  intros w. unfold waitpid. destruct (script (os w)) as [|r rest] eqn:E.
  - reflexivity.
  - split; [reflexivity | split; [exists [] | exists [r]]]; simpl; auto.
Qed.

Lemma steady_call_hook {A} cur (h : state → ptracer → hooked A) :
  respects steady (call_hook cur h).
Proof.
  unfold call_hook.
  apply respects_bind; [apply _ | apply respects_states_at; apply _ |].
  intros s. apply respects_bind; [apply _ | apply respects_gets; apply _ |].
  intros t. destruct (h s t).
  - apply respects_bind; [apply _ | | intros; apply respects_ret; apply _].
    apply steady_modify. reflexivity.
  - apply respects_throw; apply _.
Qed.

(** Walks through a computation; [known] closes the calls of functions
    whose frame is already established. *)
Ltac steady_tac known :=
  repeat first
    [ apply steady_states_update | apply steady_doPtrace_resume
    | apply steady_updateState | apply steady_waitpid
    | apply steady_call_hook
    | apply steady_modify; reflexivity
    | known
    | apply respects_ret; apply _ | apply respects_throw; apply _
    | apply respects_gets; apply _
    | apply respects_states_at; apply _
    | apply respects_getEventMessage; apply _
    | apply respects_getSystemCall; apply _
    | apply respects_systemCallMappings_at; apply _
    | apply respects_current_systemcall; apply _
    | apply respects_bind; [apply _ | | intros]
    | progress cbv zeta
    | match goal with
      | |- respects _ (if ?b then _ else _) => destruct b
      | |- respects _ (match ?x with _ => _ end) => destruct x
      end ].

Lemma steady_getNextEvent cur flag : respects steady (getNextEvent cur flag).
Proof. unfold getNextEvent. steady_tac fail. Qed.

Lemma steady_handleForkEvent : respects steady handleForkEvent.
Proof. unfold handleForkEvent. steady_tac fail. Qed.

Lemma steady_handleForkSignal : respects steady handleForkSignal.
Proof. unfold handleForkSignal. steady_tac fail. Qed.

Lemma steady_handleFork e : respects steady (handleFork e).
Proof.
  unfold handleFork.
  steady_tac ltac:(first [ apply steady_handleForkEvent
                         | apply steady_handleForkSignal ]).
Qed.

Lemma steady_interceptSystemCall cur :
  respects steady (interceptSystemCall cur).
Proof.
  unfold interceptSystemCall.
  steady_tac ltac:(first [ apply steady_getNextEvent
                         | apply steady_handleFork ]).
Qed.

Lemma steady_handlePreSystemCall cur :
  respects steady (handlePreSystemCall cur).
Proof.
  unfold handlePreSystemCall, getSystemCallNumber.
  steady_tac ltac:(apply steady_interceptSystemCall).
Qed.

Lemma steady_handleSeccomp : respects steady handleSeccomp.
Proof.
  unfold handleSeccomp, getSystemCallNumber.
  steady_tac ltac:(apply steady_handlePreSystemCall).
Qed.

Lemma steady_handlePostSystemCall cur :
  respects steady (handlePostSystemCall cur).
Proof. unfold handlePostSystemCall. steady_tac fail. Qed.

Lemma steady_handleSignal n : respects steady (handleSignal n).
Proof. unfold handleSignal. steady_tac fail. Qed.

(** Every branch of [dispatch] but the two that call [handleExit] leaves
    the termination flag alone. *)
Lemma steady_dispatch ret status c :
  ret ≠ ptraceEvent.exit → ret ≠ ptraceEvent.terminatedBySignal →
  respects steady (dispatch ret status c).
Proof.
  intros H1 H2. unfold dispatch, handleClone, handleExecve.
  destruct ret; try contradiction; simpl;
    steady_tac ltac:(first [ apply steady_handleSeccomp
                           | apply steady_handlePostSystemCall
                           | apply steady_handleSignal ]).
Qed.

Lemma advances_handleExit : respects advances handleExit.
Proof.
  intros w. unfold handleExit. unfold_monad. simpl.
  destruct (processHier (exe w)); simpl; split; exists []; reflexivity.
Qed.

Lemma advances_dispatch ret status c :
  respects advances (dispatch ret status c).
Proof.
  destruct (decide (ret = ptraceEvent.exit)) as [-> | H1];
    [| destruct (decide (ret = ptraceEvent.terminatedBySignal)) as [-> | H2]].
  - intros w. unfold dispatch. unfold_monad. simpl.
    pose proof (advances_handleExit w) as H.
    destruct (handleExit w); exact H.
  - intros w. unfold dispatch. unfold_monad. simpl.
    pose proof (advances_handleExit w) as H.
    destruct (handleExit w); exact H.
  - intros w. apply steady_advances. by apply steady_dispatch.
Qed.

End Frames.

(** ** The event demultiplexer *)


Section Demultiplexer.
Context {P : platform}.

(** [getNextEvent], run on a registered [nextPid] and an answering
    kernel. *)
Lemma getNextEvent_run currentPid ptraceSystemcall w s r rest :
  states (exe w) !! nextPid (exe w) = Some s →
  script (os w) = r :: rest →
  getNextEvent currentPid ptraceSystemcall w =
  if stop_pid r =? -1 then
    Halt (runtime_error ("waitpid failed:" +:+ stop_strerror r))
         (resumed_and_waited currentPid ptraceSystemcall s r rest w)
  else
    verdict_outcome
      (spec_first_match spec_priority (stop_status r)) (stop_status r)
      (resumed_and_waited currentPid ptraceSystemcall s r rest w).
Proof.
  intros Hs Hscript.
  unfold getNextEvent. unfold_monad.
  simpl. rewrite Hs. simpl. rewrite Hs. simpl. rewrite Hscript. simpl.
  destruct (stop_pid r =? -1); [reflexivity |].
  unfold resumed_and_waited, spec_priority, spec_first_match.
  repeat match goal with
         | |- context [if ?b then _ else _] => destruct b
         end; reflexivity.
Qed.

(** When [getNextEvent] returns, it has run as above. *)
Lemma getNextEvent_Ret_inv currentPid ptraceSystemcall w e status w' :
  getNextEvent currentPid ptraceSystemcall w = Ret (e, status) w' →
  ∃ s r rest,
    states (exe w) !! nextPid (exe w) = Some s
    ∧ script (os w) = r :: rest
    ∧ status = stop_status r
    ∧ spec_first_match spec_priority (stop_status r) = Tag e
    ∧ w' = resumed_and_waited currentPid ptraceSystemcall s r rest w.
Proof.
  intros H.
  destruct (states (exe w) !! nextPid (exe w)) as [s|] eqn:Hs.
  - destruct (script (os w)) as [|r rest] eqn:Hscript.
    + exfalso. revert H. unfold getNextEvent. unfold_monad.
      simpl. rewrite Hs. simpl. rewrite Hs. simpl. rewrite Hscript.
      discriminate.
    + rewrite (getNextEvent_run _ _ _ _ _ _ Hs Hscript) in H.
      destruct (stop_pid r =? -1); [discriminate |].
      destruct (spec_first_match spec_priority (stop_status r)) eqn:Hv;
        simpl in H; [| discriminate].
      injection H as <- <- <-. exists s, r, rest. auto.
  - exfalso. revert H. unfold getNextEvent. unfold_monad.
    simpl. rewrite Hs. discriminate.
Qed.

(** A turn of the loop whose wait returns dispatches the event with
    [nextPid] set to the tracee that stopped. *)
Lemma runIteration_dispatch c w e status w0 :
  getNextEvent (nextPid (exe w)) c w = Ret (e, status) w0 →
  runIteration c w = dispatch e status c (stopped_tracee_next w0).
Proof.
  intros H. unfold runIteration. unfold_monad. simpl. rewrite H.
  reflexivity.
Qed.

Lemma runIteration_Ret_inv c w c' w' :
  runIteration c w = Ret c' w' →
  ∃ e status w0,
    getNextEvent (nextPid (exe w)) c w = Ret (e, status) w0
    ∧ dispatch e status c (stopped_tracee_next w0) = Ret c' w'.
Proof.
  intros H.
  destruct (getNextEvent (nextPid (exe w)) c w) as [[e status] w0|h w0]
    eqn:Hev.
  - rewrite (runIteration_dispatch _ _ _ _ _ Hev) in H. eauto.
  - exfalso. revert H. unfold runIteration. unfold_monad. simpl.
    rewrite Hev. discriminate.
Qed.


End Demultiplexer.

(** ** The supervisor loop, the exit handler and the fork reconciler *)

#[local] Instance only_fresh_entries_preorder : PreOrder only_fresh_entries.
Proof.
  split.
  - intros w. split; [auto | congruence].
  - intros w1 w2 w3 [K1 F1] [K2 F2]. split; [auto |].
    intros p s3 H3 H1. destruct (states (exe w2) !! p) as [s2|] eqn:H2.
    + rewrite (K2 _ _ H2) in H3. injection H3 as <-. by apply F1.
    + by apply F2.
Qed.

Lemma only_fresh_same w w' :
  states (exe w') = states (exe w) → only_fresh_entries w w'.
Proof. intros H. split; rewrite H; [auto | congruence]. Qed.

Lemma only_fresh_emplace w w' child :
  states (exe w') = emplace child (freshState child) (states (exe w)) →
  only_fresh_entries w w'.
Proof.
  intros H. unfold emplace in H.
  destruct (states (exe w) !! child) eqn:Hc; [by apply only_fresh_same |].
  split; rewrite H.
  - intros p s Hp. rewrite lookup_insert_ne; [done | congruence].
  - intros p s' Hp Hnone. destruct (decide (child = p)) as [-> | Hne].
    + rewrite lookup_insert_eq in Hp. by injection Hp as <-.
    + rewrite lookup_insert_ne in Hp by done. congruence.
Qed.

Lemma emplace_is_Some child s (m : gmap Z state) :
  is_Some (emplace child s m !! child).
Proof.
  unfold emplace. destruct (m !! child) eqn:H; [by rewrite H |].
  rewrite lookup_insert_eq. eauto.
Qed.

Section Supervisor.
Context {P : platform}.

(** The resume request of [getNextEvent] is issued, and the slot it read
    cleared, whatever the kernel then answers. *)
Lemma getNextEvent_resumes currentPid ptraceSystemcall w s :
  states (exe w) !! nextPid (exe w) = Some s →
  let w' := final (getNextEvent currentPid ptraceSystemcall w) in
  resumed (os w')
  = mkResume (if ptraceSystemcall then PTRACE_SYSCALL else PTRACE_CONT)
             currentPid (signalToDeliver s) (nextPid (exe w))
    :: resumed (os w)
  ∧ states (exe w')
    = <[nextPid (exe w) := set_signalToDeliver 0 s]> (states (exe w))
  ∧ nextPid (exe w') = nextPid (exe w).
Proof.
  intros Hs. destruct (script (os w)) as [|r rest] eqn:Hscript.
  - unfold getNextEvent. unfold_monad.
    simpl. rewrite Hs. simpl. rewrite Hs. simpl. rewrite Hscript.
    simpl. auto.
  - rewrite (getNextEvent_run _ _ _ _ _ _ Hs Hscript).
    destruct (stop_pid r =? -1); [simpl; auto |].
    destruct (spec_first_match spec_priority (stop_status r)); simpl; auto.
Qed.

(** Within a turn, whatever follows the wait only adds to the record of
    resume requests. *)
Lemma runIteration_final c w :
  advances (final (getNextEvent (nextPid (exe w)) c w))
           (final (runIteration c w)).
Proof.
  destruct (getNextEvent (nextPid (exe w)) c w) as [[e status] w0|h w0]
    eqn:Hev.
  - rewrite (runIteration_dispatch _ _ _ _ _ Hev).
    apply (advances_dispatch e status c (stopped_tracee_next w0)).
  - unfold runIteration. unfold_monad. simpl. rewrite Hev. reflexivity.
Qed.



(** The reconciler leaves the registry as it was or with one emplaced
    fresh State, and when it returns, the next tracee to resume is the
    child named by the fork event's message. *)
Lemma handleFork_final e w :
  let w' := final (handleFork e w) in
  states (exe w') = states (exe w)
  ∨ ∃ child, states (exe w')
             = emplace child (freshState child) (states (exe w)).
Proof.
  cbv zeta. unfold handleFork, handleForkSignal, handleForkEvent.
  unfold_monad.
  destruct e; simpl; auto;
    destruct (script (os w)) as [|r rest]; simpl; eauto;
    repeat match goal with
           | |- context [if ?b then _ else _] => destruct b; simpl
           end; eauto.
Qed.

Lemma handleFork_Ret_inv e w w' :
  handleFork e w = Ret tt w' →
  let child := nextPid (exe w') in
  states (exe w') = emplace child (freshState child) (states (exe w))
  ∧ ((e = ptraceEvent.fork ∨ e = ptraceEvent.vfork)
     ∧ child = stop_msg (lastStop (os w))
     ∨ e = ptraceEvent.signal
       ∧ ∃ r rest, script (os w) = r :: rest ∧ is_fork_stop r = true
                   ∧ child = stop_msg r).
Proof.
  cbv zeta.
  unfold handleFork, handleForkSignal, handleForkEvent, is_fork_stop.
  unfold_monad.
  destruct e; simpl; try discriminate;
    destruct (script (os w)) as [|r rest]; simpl; try discriminate;
    destruct (stop_pid r =? -1); simpl; try discriminate.
  - destruct (isPtraceEvent (stop_status r) PTRACE_EVENT_FORK) eqn:E1,
      (isPtraceEvent (stop_status r) PTRACE_EVENT_VFORK) eqn:E2;
      simpl; try discriminate;
      intros [= <-]; simpl; (split; [reflexivity |]); right;
      (split; [reflexivity |]); exists r, rest; rewrite ?E1, ?E2; auto.
  - destruct (stop_pid r =? stop_msg (lastStop (os w))); simpl;
      try discriminate.
    intros [= <-]; simpl. auto.
  - destruct (stop_pid r =? stop_msg (lastStop (os w))); simpl;
      try discriminate.
    intros [= <-]; simpl. auto.
Qed.

(** C4: when the reconciler returns, [nextPid] is the id of the new child
    (the message of the fork event, whichever of the two events came
    first), the child is registered, and the first resume request of the
    supervisor's next turn is for the child. *)
Theorem child_runs_first e w w' :
  handleFork e w = Ret tt w' →
  let child := nextPid (exe w') in
  (e = ptraceEvent.fork ∨ e = ptraceEvent.vfork →
     child = stop_msg (lastStop (os w)))
  ∧ (e = ptraceEvent.signal →
     ∃ r rest, script (os w) = r :: rest ∧ is_fork_stop r = true
               ∧ child = stop_msg r)
  ∧ (e = ptraceEvent.fork ∨ e = ptraceEvent.vfork ∨ e = ptraceEvent.signal)
  ∧ is_Some (states (exe w') !! child)
  ∧ ∀ c, ∃ sig newer,
      resumed (os (final (runIteration c w')))
      = newer ++ mkResume (if c then PTRACE_SYSCALL else PTRACE_CONT)
                          child sig child
              :: resumed (os w').
Proof.
  intros Hret. destruct (handleFork_Ret_inv _ _ _ Hret) as [Hst Hch].
  cbv zeta. repeat split.
  - intros He. destruct Hch as [[_ H] | [-> _]]; [exact H |].
    destruct He; discriminate.
  - intros ->. destruct Hch as [[[?|?] _] | [_ H]]; [discriminate .. | exact H].
  - destruct Hch as [[[?|?] _] | [? _]]; auto.
  - rewrite Hst. apply emplace_is_Some.
  - intros c.
    assert (is_Some (states (exe w') !! nextPid (exe w'))) as [s Hs]
      by (rewrite Hst; apply emplace_is_Some).
    destruct (getNextEvent_resumes (nextPid (exe w')) c w' s Hs)
      as (Hlog & _ & _).
    destruct (runIteration_final c w') as [[newer Hnew] _].
    exists (signalToDeliver s), newer. rewrite Hnew, Hlog. reflexivity.
Qed.

(** C9: no branch of the reconciler writes a pending signal.  Every State
    already in the registry is left as it was, an entry that appears is a
    fresh State, and so a child that was not registered before has no
    signal pending and is resumed with none. *)
Theorem fork_reconciler_records_no_signal (e : ptraceEvent.t) (w : world) :
  only_fresh_entries w (final (handleFork e w))
  ∧ only_fresh_entries w (final (handleForkEvent w))
  ∧ only_fresh_entries w (final (handleForkSignal w))
  ∧ (∀ p n, pending w p = Some n →
            pending (final (handleFork e w)) p = Some n)
  ∧ (∀ w', handleFork e w = Ret tt w' →
           let child := nextPid (exe w') in
           states (exe w) !! child = None →
           pending w' child = Some 0
           ∧ ∀ c, res_sig <$> head (resumed (os (final
                                      (getNextEvent child c w'))))
                  = Some 0).
Proof.
  assert (Hfork : only_fresh_entries w (final (handleFork e w))).
  { destruct (handleFork_final e w) as [H | [child H]].
    - by apply only_fresh_same.
    - by apply only_fresh_emplace with child. }
  split; [exact Hfork |]. split; [| split; [| split]].
  - apply only_fresh_emplace with (stop_msg (lastStop (os w))). reflexivity.
  - apply only_fresh_same. unfold handleForkSignal. unfold_monad. simpl.
    destruct (script (os w)) as [|r rest]; simpl; [reflexivity |].
    repeat match goal with
           | |- context [if ?b then _ else _] => destruct b; simpl
           end; reflexivity.
  - intros p n. unfold pending.
    destruct (states (exe w) !! p) as [s|] eqn:Hp; [| discriminate].
    destruct Hfork as [Hkeep _]. by rewrite (Hkeep _ _ Hp).
  - intros w' Hret child Hnew.
    assert (Hs : states (exe w') !! child = Some (freshState child)).
    { destruct (handleFork_Ret_inv _ _ _ Hret) as [Hst _].
      fold child in Hst. rewrite Hst. unfold emplace. rewrite Hnew.
      apply lookup_insert_eq. }
    split; [unfold pending; by rewrite Hs |].
    intros c.
    destruct (getNextEvent_resumes child c w' _ Hs) as (Hlog & _ & _).
    rewrite Hlog. reflexivity.
Qed.

End Supervisor.

(** ** The pre-system-call handler *)

Lemma occurs_in_prefix sub s :
  String.prefix sub s = true → occurs_in sub s = true.
Proof. intros H. destruct s; cbn [occurs_in]; rewrite H; reflexivity. Qed.

Lemma prefix_app sub rest : String.prefix sub (sub +:+ rest) = true.
Proof.
  induction sub as [|a sub IH]; simpl.
  - destruct rest; reflexivity.
  - destruct (Ascii.ascii_dec a a); [exact IH | contradiction].
Qed.

Lemma occurs_in_app pre sub rest : occurs_in sub (pre +:+ sub +:+ rest) = true.
Proof.
  induction pre as [|a pre IH].
  - apply occurs_in_prefix. exact (prefix_app sub rest).
  - change (String a pre +:+ sub +:+ rest)
      with (String a (pre +:+ sub +:+ rest)).
    cbn [occurs_in]. rewrite IH. apply orb_true_r.
Qed.

Section PreSystemCall.
Context {P : platform}.

(** [handlePreSystemCall], step by step: the table read, the dispatcher,
    the store into the State, and only then the range check. *)
Lemma handlePreSystemCall_run cur w :
  let n := to_int (orig_rax (tracer (exe w))) in
  handlePreSystemCall cur w =
  if n <? 0 then Halt undefined_behaviour w
  else match systemCallMappings !! Z.to_nat n with
       | None => Halt undefined_behaviour w
       | Some name =>
           match switch_case n dispatchTable with
           | None =>
               Halt (runtime_error ("Missing case for system call: "
                                    +:+ name +:+ " this is a bug!")) w
           | Some k =>
               match states (exe w) !! cur with
               | None => Halt out_of_range w
               | Some s =>
                   let w1 := handler_stored cur (mkSystemCall n name k) s w in
                   if unknownSystemCallNumber n then
                     Halt (runtime_error ("Unkown system call number: "
                                          +:+ to_string n)) w1
                   else interceptSystemCall cur w1
               end
           end
       end.
Proof.
  intros n. unfold handlePreSystemCall, systemCallMappings_at, getSystemCall.
  unfold_monad. simpl. fold n.
  destruct (n <? 0); [reflexivity |].
  destruct (systemCallMappings !! Z.to_nat n); [| reflexivity].
  destruct (switch_case n dispatchTable); [| reflexivity].
  simpl. destruct (states (exe w) !! cur); [| reflexivity].
  simpl. destruct (unknownSystemCallNumber n); reflexivity.
Qed.

Lemma unknownSystemCallNumber_spec n :
  unknownSystemCallNumber n = true ↔ n < 0 ∨ SYSTEM_CALL_COUNT < n.
Proof.
  unfold unknownSystemCallNumber. rewrite orb_true_iff.
  rewrite !Z.ltb_lt. reflexivity.
Qed.

(** C3, as the code has it: for a system-call number outside the valid
    range the name table is read and the dispatcher asked before the
    range check.  A negative number fails in the read outside the table;
    any other fails there, or in the dispatcher, and the range check fails
    only once a handler has been stored in the State. *)
Theorem range_check_comes_after_lookup cur w :
  let n := to_int (orig_rax (tracer (exe w))) in
  unknownSystemCallNumber n = true →
  (n < 0 → handlePreSystemCall cur w = Halt undefined_behaviour w)
  ∧ (handlePreSystemCall cur w = Halt undefined_behaviour w
     ∨ (∃ name, systemCallMappings !! Z.to_nat n = Some name
                ∧ switch_case n dispatchTable = None
                ∧ handlePreSystemCall cur w
                  = Halt (runtime_error ("Missing case for system call: "
                                         +:+ name +:+ " this is a bug!")) w)
     ∨ (∃ name k, systemCallMappings !! Z.to_nat n = Some name
                  ∧ switch_case n dispatchTable = Some k
                  ∧ (handlePreSystemCall cur w = Halt out_of_range w
                     ∨ ∃ s, states (exe w) !! cur = Some s
                            ∧ handlePreSystemCall cur w
                              = Halt (runtime_error
                                        ("Unkown system call number: "
                                         +:+ to_string n))
                                     (handler_stored cur
                                        (mkSystemCall n name k) s w)))).
Proof.
  intros n Hn. rewrite handlePreSystemCall_run. fold n. rewrite Hn. split.
  - intros Hneg. destruct (Z.ltb_spec n 0); [reflexivity | lia].
  - destruct (n <? 0); [auto |].
    destruct (systemCallMappings !! Z.to_nat n) as [name|]; [| auto].
    destruct (switch_case n dispatchTable) as [k|]; [| eauto 6].
    right. right. exists name, k. split; [done | split; [done |]].
    destruct (states (exe w) !! cur); eauto.
Qed.

(** C8, as the code has it: for a number the name table covers and the
    dispatcher has no case for, the failure is the dispatcher's, and its
    message names the system call by the name the table gives it. *)
Theorem missing_handler_named_in_error cur w name :
  let n := to_int (orig_rax (tracer (exe w))) in
  0 ≤ n →
  systemCallMappings !! Z.to_nat n = Some name →
  switch_case n dispatchTable = None →
  let what := "Missing case for system call: " +:+ name
              +:+ " this is a bug!" in
  handlePreSystemCall cur w = Halt (runtime_error what) w
  ∧ getSystemCall n name w = Halt (runtime_error what) w
  ∧ occurs_in name what = true.
Proof.
  intros n Hpos Hname Hcase what. split; [| split].
  - rewrite handlePreSystemCall_run. fold n.
    destruct (Z.ltb_spec n 0); [lia |]. rewrite Hname, Hcase. reflexivity.
  - unfold getSystemCall. rewrite Hcase. reflexivity.
  - apply occurs_in_app.
Qed.

(** C10: the range check rejects a number exactly when it is below 0 or
    above [SYSTEM_CALL_COUNT].  A number it does not reject,
    [SYSTEM_CALL_COUNT] itself among them, goes to the name table and to
    the dispatcher and on to the pre-hook with no range error. *)
Theorem range_check_admits_SYSTEM_CALL_COUNT :
  (∀ n, unknownSystemCallNumber n = true ↔ n < 0 ∨ SYSTEM_CALL_COUNT < n)
  ∧ (0 ≤ SYSTEM_CALL_COUNT →
     unknownSystemCallNumber SYSTEM_CALL_COUNT = false)
  ∧ (∀ cur w,
       let n := to_int (orig_rax (tracer (exe w))) in
       unknownSystemCallNumber n = false →
       handlePreSystemCall cur w
       = (name ← systemCallMappings_at n;
          c ← getSystemCall n name;
          states_update cur (set_systemcall (Some c));;
          interceptSystemCall cur) w)
  ∧ (∀ cur w,
       0 ≤ SYSTEM_CALL_COUNT →
       to_int (orig_rax (tracer (exe w))) = SYSTEM_CALL_COUNT →
       handlePreSystemCall cur w
       = (name ← systemCallMappings_at SYSTEM_CALL_COUNT;
          c ← getSystemCall SYSTEM_CALL_COUNT name;
          states_update cur (set_systemcall (Some c));;
          interceptSystemCall cur) w).
Proof.
  assert (Hboundary : 0 ≤ SYSTEM_CALL_COUNT →
                      unknownSystemCallNumber SYSTEM_CALL_COUNT = false).
  { intros H. apply not_true_is_false.
    rewrite unknownSystemCallNumber_spec. lia. }
  assert (Hpass : ∀ cur w,
       let n := to_int (orig_rax (tracer (exe w))) in
       unknownSystemCallNumber n = false →
       handlePreSystemCall cur w
       = (name ← systemCallMappings_at n;
          c ← getSystemCall n name;
          states_update cur (set_systemcall (Some c));;
          interceptSystemCall cur) w).
  { intros cur w n Hn. unfold handlePreSystemCall. unfold_monad. simpl.
    fold n. destruct (systemCallMappings_at n w); [| reflexivity].
    destruct (getSystemCall n a w0); [| reflexivity].
    destruct (states (exe w1) !! cur); [| reflexivity].
    simpl. rewrite Hn. reflexivity. }
  split; [exact unknownSystemCallNumber_spec |].
  split; [exact Hboundary |]. split; [exact Hpass |].
  intros cur w Hpos Hn. rewrite <- Hn. apply Hpass. rewrite Hn. auto.
Qed.

End PreSystemCall.

(** ** Whole runs of the supervisor *)

Section Runs.
Context {P : platform}.

(** A turn that returns has taken an answer off the script. *)
Lemma runIteration_consumes c w c' w' :
  runIteration c w = Ret c' w' →
  (length (script (os w')) < length (script (os w)))%nat.
Proof.
  intros H. destruct (runIteration_Ret_inv _ _ _ _ H)
    as (e & status & w0 & Hev & Hd).
  destruct (getNextEvent_Ret_inv _ _ _ _ _ _ Hev)
    as (s & r & rest & _ & Hscript & _ & _ & ->).
  destruct (advances_dispatch e status c
              (stopped_tracee_next
                 (resumed_and_waited (nextPid (exe w)) c s r rest w)))
    as [_ [used Hused]].
  rewrite Hd in Hused. simpl in Hused.
  apply (f_equal length) in Hused. rewrite length_app in Hused.
  rewrite Hscript. simpl. lia.
Qed.

(** The fuel [runProgram] gives the loop is enough. *)
Lemma runLoop_total fuel c w :
  (length (script (os w)) < fuel)%nat → is_Some (runLoop fuel c w).
Proof.
  revert c w. induction fuel as [|fuel IH]; intros c w Hlen; [lia |].
  simpl. destruct (exitLoop (exe w)); [eauto |].
  destruct (runIteration c w) as [c' w'|h w'] eqn:Hit; [| eauto].
  apply IH. pose proof (runIteration_consumes _ _ _ _ Hit). lia.
Qed.

Lemma runProgram_runLoop w :
  runLoop (S (length (script (os w)))) false w = Some (runProgram w).
Proof.
  unfold runProgram.
  destruct (runLoop_total (S (length (script (os w)))) false w) as [o Ho];
    [lia |].
  rewrite Ho. reflexivity.
Qed.

(** The termination flag is only ever set by [handleExit] on an empty
    ancestor stack, which leaves the registry as it is. *)
Lemma dispatch_sets_flag e status c w0 c' w1 :
  dispatch e status c w0 = Ret c' w1 →
  exitLoop (exe w0) = false → exitLoop (exe w1) = true →
  states (exe w1) = states (exe w0).
Proof.
  intros Hd H0 H1.
  assert (Hexit : (handleExit;; mret c) w0 = Ret c' w1 →
                  states (exe w1) = states (exe w0)).
  { unfold handleExit. unfold_monad. simpl.
    destruct (processHier (exe w0)); simpl; intros [= _ <-];
      [reflexivity |]. simpl in H1. congruence. }
  destruct (decide (e = ptraceEvent.exit)) as [-> | Hne1];
    [exact (Hexit Hd) |].
  destruct (decide (e = ptraceEvent.terminatedBySignal)) as [-> | Hne2];
    [exact (Hexit Hd) |].
  destruct (steady_dispatch e status c Hne1 Hne2 w0) as [Hflag _].
  rewrite Hd in Hflag. simpl in Hflag. congruence.
Qed.

Lemma runIteration_sets_flag c w c' w' :
  runIteration c w = Ret c' w' →
  exitLoop (exe w) = false → exitLoop (exe w') = true →
  is_Some (states (exe w') !! nextPid (exe w)).
Proof.
  intros H H0 H1. destruct (runIteration_Ret_inv _ _ _ _ H)
    as (e & status & w0 & Hev & Hd).
  destruct (getNextEvent_Ret_inv _ _ _ _ _ _ Hev)
    as (s & r & rest & _ & _ & _ & _ & ->).
  rewrite (dispatch_sets_flag _ _ _ _ _ _ Hd H0 H1). simpl.
  rewrite lookup_insert_eq. eauto.
Qed.

Lemma runLoop_Ret fuel c w w' :
  runLoop fuel c w = Some (Ret tt w') →
  exitLoop (exe w') = true
  ∧ (exitLoop (exe w) = false → states (exe w') ≠ ∅).
Proof.
  revert c w. induction fuel as [|fuel IH]; intros c w; [discriminate |].
  simpl. destruct (exitLoop (exe w)) eqn:Hflag.
  - intros [= <-]. split; [exact Hflag | discriminate].
  - destruct (runIteration c w) as [c1 w1|h w1] eqn:Hit; [| discriminate].
    intros Hrest. destruct (IH _ _ Hrest) as [Hend Hne].
    split; [exact Hend |]. intros _.
    destruct (exitLoop (exe w1)) eqn:Hflag1; [| by apply Hne].
    destruct fuel as [|fuel]; [discriminate |].
    simpl in Hrest. rewrite Hflag1 in Hrest. injection Hrest as <-.
    destruct (runIteration_sets_flag _ _ _ _ Hit Hflag Hflag1) as [s Hs].
    intros Hempty. rewrite Hempty, lookup_empty in Hs. discriminate.
Qed.

End Runs.

(** C2, as the code has it: when the supervisor leaves its loop the
    termination flag is set and the registry is not empty, since
    [handleExit] on an empty ancestor stack leaves the registry as it is; for
    a single tracee whose only event is its exit the registry holds one
    State before the run and one after it. *)
Theorem registry_not_empty_at_exit :
  (∀ (P : platform) fuel c w w',
     exitLoop (exe w) = false →
     runLoop fuel c w = Some (Ret tt w') →
     exitLoop (exe w') = true ∧ states (exe w') ≠ ∅)
  ∧ (∀ (P : platform) w w',
       exitLoop (exe w) = false →
       runProgram w = Ret tt w' →
       exitLoop (exe w') = true ∧ states (exe w') ≠ ∅)
  ∧ (∀ w, processHier (exe w) = [] →
          states (exe (final (handleExit w))) = states (exe w))
  ∧ (let w := Linux.boot 0 1000 [Linux.stopOf 1000 (Linux.exited 7) 0 0] in
     ∃ w', runProgram (P := Linux.recent) w = Ret tt w'
           ∧ size (states (exe w)) = 1%nat
           ∧ size (states (exe w')) = 1%nat).
Proof.
  assert (Hloop : ∀ (P : platform) fuel c w w',
     exitLoop (exe w) = false →
     runLoop fuel c w = Some (Ret tt w') →
     exitLoop (exe w') = true ∧ states (exe w') ≠ ∅).
  { intros P fuel c w w' Hflag Hrun.
    destruct (runLoop_Ret _ _ _ _ Hrun) as [H1 H2]. auto. }
  split; [exact Hloop |]. split; [| split].
  - intros P w w' Hflag Hrun.
    apply (Hloop P (S (length (script (os w)))) false w w' Hflag).
    rewrite runProgram_runLoop, Hrun. reflexivity.
  - intros w Hh. unfold handleExit. unfold_monad. rewrite Hh. reflexivity.
  - cbv zeta. eexists. split; [vm_compute; reflexivity |].
    split; vm_compute; reflexivity.
Qed.

(** ** Pending signals *)

Section WeakestPre.

Lemma wp_bind {A B} (m : M A) (f : A → M B) Q w :
  wp m (λ a w', wp (f a) Q w') w → wp (m ≫= f) Q w.
Proof.
  intros H Hlog. destruct (H Hlog) as [Hl Hq]. rewrite bind_unfold.
  destruct (m w) as [a w1|h w1]; simpl in *.
  - exact (Hq a w1 eq_refl Hl).
  - split; [exact Hl | discriminate].
Qed.

Lemma wp_conseq {A} (m : M A) (Q Q' : A → world → Prop) w :
  wp m Q w → (∀ a w', Q a w' → Q' a w') → wp m Q' w.
Proof.
  intros H HQ Hlog. destruct (H Hlog) as [Hl Hq]. split; [exact Hl |].
  intros a w' Hr. apply HQ, Hq, Hr.
Qed.

Lemma wp_ret {A} (a : A) (Q : A → world → Prop) w :
  Q a w → wp (mret a) Q w.
Proof. intros H Hlog. split; [exact Hlog |]. by intros ? ? [= <- <-]. Qed.

Lemma wp_throw {A} h (Q : A → world → Prop) w : wp (throw h) Q w.
Proof. intros Hlog. split; [exact Hlog | discriminate]. Qed.

Lemma wp_gets {A} (f : execution → A) (Q : A → world → Prop) w :
  Q (f (exe w)) w → wp (gets f) Q w.
Proof. intros H Hlog. split; [exact Hlog |]. by intros ? ? [= <- <-]. Qed.

Lemma wp_modify f (Q : unit → world → Prop) w :
  Q tt {| exe := f (exe w); os := os w |} → wp (modify f) Q w.
Proof. intros H Hlog. split; [exact Hlog |]. by intros ? ? [= <- <-]. Qed.

Lemma wp_states_at pid (Q : state → world → Prop) w :
  (∀ s, states (exe w) !! pid = Some s → Q s w) → wp (states_at pid) Q w.
Proof.
  intros H Hlog. unfold states_at.
  destruct (states (exe w) !! pid) as [s|];
    (split; [exact Hlog |]); [| discriminate].
  intros ? ? [= <- <-]. by apply H.
Qed.

Lemma wp_states_update pid f (Q : unit → world → Prop) w :
  (∀ s, states (exe w) !! pid = Some s →
        Q tt {| exe := set_states (<[pid := f s]> (states (exe w))) (exe w);
                os := os w |}) →
  wp (states_update pid f) Q w.
Proof.
  intros H. unfold states_update. apply wp_bind, wp_states_at.
  intros s Hs. apply wp_modify. by apply H.
Qed.

Lemma wp_getEventMessage (Q : Z → world → Prop) w :
  Q (stop_msg (lastStop (os w))) w → wp getEventMessage Q w.
Proof. intros H Hlog. split; [exact Hlog |]. by intros ? ? [= <- <-]. Qed.

Lemma wp_updateState pid (Q : unit → world → Prop) w :
  Q tt {| exe := set_tracer (mkPtracer (stop_orig_rax (lastStop (os w))))
                            (exe w);
          os := os w |} →
  wp (updateState pid) Q w.
Proof. intros H Hlog. split; [exact Hlog |]. by intros ? ? [= <- <-]. Qed.

Lemma wp_waitpid pid (Q : stop → world → Prop) w :
  (∀ r rest, script (os w) = r :: rest →
             Q r {| exe := exe w;
                    os := {| script := rest; lastStop := r;
                             resumed := resumed (os w) |} |}) →
  wp (waitpid pid) Q w.
Proof.
  intros H Hlog. unfold waitpid.
  destruct (script (os w)) as [|r rest];
    (split; [exact Hlog |]); [discriminate |].
  intros ? ? [= <- <-]. by apply H.
Qed.

Lemma wp_getSystemCall n name (Q : systemCall → world → Prop) w :
  (∀ c, Q c w) → wp (getSystemCall n name) Q w.
Proof.
  intros H Hlog. unfold getSystemCall.
  destruct (switch_case n dispatchTable);
    (split; [exact Hlog |]); [| discriminate].
  intros ? ? [= <- <-]. apply H.
Qed.

Lemma wp_systemCallMappings_at `{platform} i (Q : string → world → Prop) w :
  (∀ name, Q name w) → wp (systemCallMappings_at i) Q w.
Proof.
  intros HQ Hlog. unfold systemCallMappings_at.
  destruct (i <? 0); [split; [exact Hlog | discriminate] |].
  destruct (systemCallMappings !! Z.to_nat i);
    (split; [exact Hlog |]); [| discriminate].
  intros ? ? [= <- <-]. apply HQ.
Qed.

Lemma wp_current_systemcall cur (Q : systemCall → world → Prop) w :
  (∀ c, Q c w) → wp (current_systemcall cur) Q w.
Proof.
  intros H. unfold current_systemcall. apply wp_bind, wp_states_at.
  intros s _. destruct (systemcall s); [by apply wp_ret | apply wp_throw].
Qed.

Lemma wp_call_hook {A} cur (h : state → ptracer → hooked A)
      (Q : A → world → Prop) w :
  (∀ a s' t',
     Q a {| exe := set_tracer t'
                     (set_states (<[cur := s']> (states (exe w))) (exe w));
            os := os w |}) →
  wp (call_hook cur h) Q w.
Proof.
  intros H. unfold call_hook. apply wp_bind, wp_states_at. intros s _.
  apply wp_bind, wp_gets. destruct (h s (tracer (exe w))); [| apply wp_throw].
  apply wp_bind, wp_modify, wp_ret, H.
Qed.

End WeakestPre.

Lemma none_pending_others_quiet w : none_pending w → others_quiet w.
Proof. intros H p s Hp _. exact (H p s Hp). Qed.

Lemma none_pending_insert (m : gmap Z state) pid s :
  (∀ p s0, m !! p = Some s0 → signalToDeliver s0 = 0) →
  signalToDeliver s = 0 →
  ∀ p s0, <[pid := s]> m !! p = Some s0 → signalToDeliver s0 = 0.
Proof.
  intros Hm Hs p s0. destruct (decide (pid = p)) as [-> | Hne].
  - rewrite lookup_insert_eq. by intros [= <-].
  - rewrite lookup_insert_ne by done. apply Hm.
Qed.

Lemma none_pending_emplace (m : gmap Z state) child :
  (∀ p s0, m !! p = Some s0 → signalToDeliver s0 = 0) →
  ∀ p s0, emplace child (freshState child) m !! p = Some s0 →
          signalToDeliver s0 = 0.
Proof.
  intros Hm. unfold emplace. destruct (m !! child); [exact Hm |].
  by apply none_pending_insert.
Qed.

Section Signals.
Context {P : platform}.

(** What [getNextEvent] injects is what [nextPid] had pending; when the
    tracee it resumes is [nextPid], or nothing is pending anywhere, the
    request is sound and nothing is pending afterwards. *)
Lemma getNextEvent_wp cur flag w :
  others_quiet w →
  cur = nextPid (exe w) ∨ none_pending w →
  wp (getNextEvent cur flag)
     (λ _ w', none_pending w' ∧ nextPid (exe w') = nextPid (exe w)) w.
Proof.
  intros Hq Hcur Hlog.
  destruct (states (exe w) !! nextPid (exe w)) as [s|] eqn:Hs.
  - destruct (getNextEvent_resumes cur flag w s Hs) as (Hl & Hst & Hn).
    split.
    + unfold log_sound. rewrite Hl. constructor; [| exact Hlog].
      unfold own_signal. simpl.
      destruct Hcur as [-> | Hnone]; [by right | left].
      exact (Hnone _ _ Hs).
    + intros a w' Hret. rewrite Hret in Hst, Hn. simpl in Hst, Hn.
      split; [| exact Hn]. intros p s0. rewrite Hst.
      destruct (decide (nextPid (exe w) = p)) as [<- | Hne].
      * rewrite lookup_insert_eq. by intros [= <-].
      * rewrite lookup_insert_ne by done. intros Hp. by apply (Hq p).
  - assert (Hrun : getNextEvent cur flag w = Halt out_of_range w).
    { unfold getNextEvent. unfold_monad. simpl. by rewrite Hs. }
    rewrite Hrun. split; [exact Hlog | discriminate].
Qed.

Lemma handleFork_log e w :
  resumed (os (final (handleFork e w))) = resumed (os w).
Proof.
  unfold handleFork, handleForkSignal, handleForkEvent. unfold_monad.
  destruct e; simpl; auto;
    destruct (script (os w)) as [|r rest]; simpl; auto;
    repeat match goal with
           | |- context [if ?b then _ else _] => destruct b; simpl
           end; auto.
Qed.

Lemma handleFork_wp e w :
  none_pending w → wp (handleFork e) (λ _ w', none_pending w') w.
Proof.
  intros Hnone Hlog. split.
  - unfold log_sound. rewrite handleFork_log. exact Hlog.
  - intros [] w' Hret. destruct (handleFork_Ret_inv _ _ _ Hret) as [Hst _].
    unfold none_pending. rewrite Hst. by apply none_pending_emplace.
Qed.

(** The pre-hook may leave a signal pending for the tracee it was called
    for, which is the next to be resumed; the reconciler's resumes find
    that slot, or every slot, empty. *)
Lemma interceptSystemCall_wp cur w :
  none_pending w → nextPid (exe w) = cur → traceesPid (exe w) = cur →
  wp (interceptSystemCall cur) (λ _ w', others_quiet w') w.
Proof.
  intros Hnone Hnext Htracee. unfold interceptSystemCall.
  apply wp_bind, wp_current_systemcall. intros c0.
  apply wp_bind, wp_current_systemcall. intros c.
  apply wp_bind, wp_call_hook. intros callPostHook s' t'.
  set (w1 := {| exe := set_tracer t' _; os := os w |}).
  assert (Hq1 : others_quiet w1).
  { intros p s0. simpl. rewrite Hnext. intros Hp Hne.
    rewrite lookup_insert_ne in Hp by done. exact (Hnone _ _ Hp). }
  assert (Hmid : wp (if oldKernel
                     then states_update cur (set_isPreExit true)
                     else mret tt)
                    (λ _ w2, others_quiet w2 ∧ nextPid (exe w2) = cur
                             ∧ traceesPid (exe w2) = cur) w1).
  { destruct oldKernel; [| by apply wp_ret].
    apply wp_states_update. intros s Hs. simpl. repeat split; try done.
    intros p s0. simpl. rewrite Hnext. intros Hp Hne.
    rewrite lookup_insert_ne in Hp by done.
    apply (Hq1 p s0 Hp). simpl. by rewrite Hnext. }
  apply wp_bind. eapply wp_conseq; [exact Hmid |].
  clear Hmid Hq1. intros [] w2 (Hq2 & Hn2 & Ht2). simpl.
  destruct (bool_decide _ || bool_decide _ || bool_decide _).
  - assert (Hdrain : wp (if oldKernel
                         then t ← gets traceesPid;
                              getNextEvent t true;;
                              states_update cur (set_isPreExit false)
                         else mret tt)
                        (λ _ w3, others_quiet w3
                                 ∧ (traceesPid (exe w3) = nextPid (exe w3)
                                    ∨ none_pending w3)) w2).
    { destruct oldKernel; [| apply wp_ret; split; [done | left; congruence]].
      apply wp_bind, wp_gets. apply wp_bind.
      eapply wp_conseq;
        [apply getNextEvent_wp; [done | left; congruence] |].
      intros _ w3 [Hnone3 _]. simpl. apply wp_states_update.
      intros s Hs.
      assert (none_pending
                {| exe := set_states
                            (<[cur := set_isPreExit false s]>
                               (states (exe w3))) (exe w3);
                   os := os w3 |}) as Hnone4.
      { intros p s0. simpl. apply none_pending_insert; [exact Hnone3 |].
        simpl. exact (Hnone3 _ _ Hs). }
      split; [by apply none_pending_others_quiet | by right]. }
    apply wp_bind. eapply wp_conseq; [exact Hdrain |].
    clear Hdrain. intros [] w3 [Hq3 Hor3]. simpl.
    apply wp_bind, wp_gets. apply wp_bind.
    eapply wp_conseq; [apply getNextEvent_wp; [done | exact Hor3] |].
    intros [e status] w4 [Hnone4 _]. simpl.
    apply wp_bind. eapply wp_conseq; [by apply handleFork_wp |].
    intros [] w5 Hnone5. simpl. apply wp_ret.
    by apply none_pending_others_quiet.
  - destruct oldKernel; [by apply wp_ret |].
    apply wp_bind, wp_gets, wp_ret. done.
Qed.

Lemma handlePreSystemCall_wp cur w :
  none_pending w → nextPid (exe w) = cur → traceesPid (exe w) = cur →
  wp (handlePreSystemCall cur) (λ _ w', others_quiet w') w.
Proof.
  intros Hnone Hnext Htracee. unfold handlePreSystemCall, getSystemCallNumber.
  apply wp_bind, wp_gets. apply wp_bind, wp_systemCallMappings_at.
  intros name. apply wp_bind, wp_getSystemCall. intros c.
  apply wp_bind, wp_states_update. intros s Hs.
  destruct (unknownSystemCallNumber _); [apply wp_throw |].
  apply interceptSystemCall_wp; [| done | done].
  intros p s0. simpl. apply none_pending_insert; [exact Hnone |].
  simpl. exact (Hnone _ _ Hs).
Qed.

Lemma handleSeccomp_wp w :
  none_pending w → nextPid (exe w) = traceesPid (exe w) →
  wp handleSeccomp (λ _ w', others_quiet w') w.
Proof.
  intros Hnone Hnext. unfold handleSeccomp, getSystemCallNumber.
  apply wp_bind, wp_gets. apply wp_bind, wp_getEventMessage.
  destruct (to_uint16 _ =? INT16_MAX).
  - apply wp_bind, wp_updateState. apply wp_bind, wp_gets.
    apply wp_bind, wp_systemCallMappings_at. intros name. apply wp_throw.
  - apply wp_bind, wp_updateState. apply wp_bind, wp_states_at.
    intros s Hs. by apply handlePreSystemCall_wp.
Qed.

Lemma handlePostSystemCall_wp cur w :
  none_pending w → nextPid (exe w) = cur →
  wp (handlePostSystemCall cur) (λ _ w', others_quiet w') w.
Proof.
  intros Hnone Hnext. unfold handlePostSystemCall.
  apply wp_bind, wp_current_systemcall. intros c.
  apply wp_call_hook. intros [] s' t' p s0. simpl. rewrite Hnext.
  intros Hp Hne. rewrite lookup_insert_ne in Hp by done.
  exact (Hnone _ _ Hp).
Qed.

Lemma handleSignal_wp n w :
  none_pending w → nextPid (exe w) = traceesPid (exe w) →
  wp (handleSignal n) (λ _ w', others_quiet w') w.
Proof.
  intros Hnone Hnext. unfold handleSignal.
  apply wp_bind, wp_gets, wp_states_update. intros s Hs p s0. simpl.
  rewrite Hnext. intros Hp Hne. rewrite lookup_insert_ne in Hp by done.
  exact (Hnone _ _ Hp).
Qed.

Lemma handleExit_wp w :
  none_pending w → wp handleExit (λ _ w', others_quiet w') w.
Proof.
  intros Hnone. unfold handleExit. apply wp_bind, wp_gets.
  destruct (processHier (exe w)) as [|top rest].
  - apply wp_modify. by apply none_pending_others_quiet.
  - apply wp_bind, wp_gets. apply wp_bind, wp_modify.
    apply wp_bind, wp_modify. apply wp_modify.
    apply none_pending_others_quiet. intros p s0. simpl.
    rewrite lookup_delete_Some. intros [_ Hp]. exact (Hnone _ _ Hp).
Qed.

Lemma dispatch_wp e status c w :
  none_pending w → nextPid (exe w) = traceesPid (exe w) →
  wp (dispatch e status c) (λ _ w', others_quiet w') w.
Proof.
  intros Hnone Hnext. pose proof (none_pending_others_quiet _ Hnone) as Hq.
  assert (Hpost : wp (updateState (traceesPid (exe w));;
                      states_at (traceesPid (exe w));;
                      handlePostSystemCall (traceesPid (exe w));;
                      mret false)
                     (λ _ w', others_quiet w') w).
  { apply wp_bind, wp_updateState. apply wp_bind, wp_states_at.
    intros s Hs. apply wp_bind.
    eapply wp_conseq; [by apply handlePostSystemCall_wp |].
    intros [] w' Hq'. by apply wp_ret. }
  assert (Hexit : wp (handleExit;; mret c) (λ _ w', others_quiet w') w).
  { apply wp_bind. eapply wp_conseq; [by apply handleExit_wp |].
    intros [] w' Hq'. by apply wp_ret. }
  unfold dispatch, handleClone, handleExecve. apply wp_bind, wp_gets.
  destruct e; simpl.
  - destruct oldKernel; [| exact Hpost].
    apply wp_bind, wp_states_at. intros s Hs.
    destruct (isPreExit s); [| exact Hpost].
    apply wp_bind, wp_states_update. intros s1 Hs1. apply wp_ret.
    apply none_pending_others_quiet. intros p s0. simpl.
    apply none_pending_insert; [exact Hnone |].
    simpl. exact (Hnone _ _ Hs1).
  - exact Hexit.
  - exact Hexit.
  - apply wp_bind. eapply wp_conseq; [by apply handleSignal_wp |].
    intros [] w' Hq'. by apply wp_ret.
  - by apply wp_ret.
  - by apply wp_ret.
  - apply wp_bind, wp_ret, wp_ret. done.
  - apply wp_bind, wp_ret, wp_ret. done.
  - by apply handleSeccomp_wp.
Qed.

(** A turn of the loop keeps the log sound and leaves no signal pending
    but for the tracee to be resumed next. *)
Lemma runIteration_wp c w :
  others_quiet w → wp (runIteration c) (λ _ w', others_quiet w') w.
Proof.
  intros Hq. unfold runIteration. apply wp_bind, wp_gets. apply wp_bind.
  eapply wp_conseq; [apply getNextEvent_wp; [done | by left] |].
  intros [e status] w0 [Hnone _]. simpl.
  apply wp_bind, wp_gets. apply wp_bind, wp_modify.
  by apply dispatch_wp.
Qed.

Lemma runLoop_log_sound fuel c w o :
  others_quiet w → log_sound w →
  runLoop fuel c w = Some o → log_sound (final o).
Proof.
  revert c w. induction fuel as [|fuel IH]; intros c w Hq Hlog;
    [discriminate |].
  simpl. destruct (exitLoop (exe w)); [by intros [= <-] |].
  destruct (runIteration_wp c w Hq Hlog) as [Hl Hret].
  destruct (runIteration c w) as [c1 w1|h w1]; simpl in Hl.
  - apply IH; [exact (Hret c1 w1 eq_refl) | exact Hl].
  - by intros [= <-].
Qed.

(** C5: a signal-stop in the supervisor loop records the signal in the
    State of the tracee that stopped and makes that tracee the next to
    resume; the next resume request is for it, injects that signal and
    clears the slot.  The slot holds one signal: a second record
    overwrites the first.  What a resume injects is what [nextPid] had
    pending, and over a whole run every request either injects nothing
    or resumes the very tracee whose slot it read. *)
Theorem signals_deferred_to_next_resume :
  (∀ c w status w0,
     getNextEvent (nextPid (exe w)) c w
     = Ret (ptraceEvent.signal, status) w0 →
     let t := traceesPid (exe w0) in
     is_Some (states (exe w0) !! t) →
     ∃ w1, runIteration c w = Ret c w1
           ∧ pending w1 t = Some (WSTOPSIG status)
           ∧ nextPid (exe w1) = t
           ∧ (∀ p, p ≠ t → states (exe w1) !! p = states (exe w0) !! p)
           ∧ resumed (os w1) = resumed (os w0)
           ∧ ∀ c', let w2 := final (getNextEvent (nextPid (exe w1)) c' w1) in
                   resumed (os w2)
                   = mkResume (if c' then PTRACE_SYSCALL else PTRACE_CONT)
                              t (WSTOPSIG status) t
                     :: resumed (os w1)
                   ∧ pending w2 t = Some 0)
  ∧ (∀ n1 n2 w,
       is_Some (states (exe w) !! traceesPid (exe w)) →
       ∃ w', (handleSignal n1;; handleSignal n2) w = Ret tt w'
             ∧ pending w' (traceesPid (exe w)) = Some n2)
  ∧ (∀ cur c w s,
       states (exe w) !! nextPid (exe w) = Some s →
       head (resumed (os (final (getNextEvent cur c w))))
       = Some (mkResume (if c then PTRACE_SYSCALL else PTRACE_CONT)
                        cur (signalToDeliver s) (nextPid (exe w))))
  ∧ (∀ fuel c w o,
       others_quiet w → log_sound w →
       runLoop fuel c w = Some o → log_sound (final o))
  ∧ (∀ w, others_quiet w → log_sound w → log_sound (final (runProgram w))).
Proof.
  split; [| split; [| split; [| split]]].
  - intros c w status w0 Hev t [s Hs].
    rewrite (runIteration_dispatch _ _ _ _ _ Hev).
    unfold dispatch, handleSignal. unfold_monad. simpl. fold t.
    rewrite Hs. simpl. eexists. split; [reflexivity |].
    unfold pending. simpl. rewrite lookup_insert_eq. simpl.
    split; [reflexivity |]. split; [reflexivity |].
    split; [intros p Hne; by rewrite lookup_insert_ne |].
    split; [reflexivity |]. intros c'.
    match goal with
    | |- context [getNextEvent ?x c' ?w1] =>
        destruct (getNextEvent_resumes x c' w1 (set_signalToDeliver
                                                  (WSTOPSIG status) s))
          as (Hl & Hst & _); [simpl; apply lookup_insert_eq |]
    end.
    cbv zeta. rewrite Hl, Hst. simpl.
    rewrite lookup_insert_eq. done.
  - intros n1 n2 w [s Hs]. unfold handleSignal. unfold_monad. simpl.
    rewrite Hs. simpl. rewrite lookup_insert_eq. simpl.
    eexists. split; [reflexivity |]. unfold pending. simpl.
    by rewrite lookup_insert_eq.
  - intros cur c w s Hs.
    destruct (getNextEvent_resumes cur c w s Hs) as (Hl & _ & _).
    by rewrite Hl.
  - exact runLoop_log_sound.
  - intros w Hq Hlog.
    apply (runLoop_log_sound _ _ _ _ Hq Hlog (runProgram_runLoop w)).
Qed.

End Signals.

(** * Further properties of the code *)

Lemma switch_case_Some n c cases :
  switch_case n cases = Some c → (n, c) ∈ cases.
Proof.
  induction cases as [|[k c'] rest IH]; [discriminate |].
  unfold switch_case; fold switch_case.
  destruct (Z.eqb_spec n k) as [-> | Hne].
  - intros [= ->]. left.
  - intros H. right. by apply IH.
Qed.

Lemma switch_case_None n (cases : list (Z * handlerClass)) :
  switch_case n cases = None ↔ n ∉ (cases.*1).
Proof.
  induction cases as [|[k c'] rest IH].
  - split; [intros _ H; inversion H | reflexivity].
  - unfold switch_case; fold switch_case. rewrite fmap_cons. simpl.
    rewrite not_elem_of_cons.
    destruct (Z.eqb_spec n k) as [-> | Hne].
    + split; [discriminate | intros [H _]; contradiction].
    + rewrite IH. tauto.
Qed.

Lemma switch_case_elem_of n c cases :
  NoDup cases.*1 → (n, c) ∈ cases → switch_case n cases = Some c.
Proof.
  induction cases as [|[k c'] rest IH]; intros Hnd Hin.
  - inversion Hin.
  - rewrite fmap_cons in Hnd. simpl in Hnd.
    apply NoDup_cons in Hnd as [Hk Hnd].
    unfold switch_case; fold switch_case.
    apply elem_of_cons in Hin as [[= -> ->] | Hin].
    + by rewrite Z.eqb_refl.
    + destruct (Z.eqb_spec n k) as [-> | Hne]; [| by apply IH].
      exfalso. apply Hk. apply (list_elem_of_fmap_2 fst rest (k, c)). exact Hin.
Qed.

Lemma dispatchTable_NoDup : NoDup dispatchTable.*1.
Proof. apply (bool_decide_unpack _). vm_compute. exact I. Qed.

Lemma dispatchTable_range :
  Forall (λ p, 0 ≤ p.1 ≤ SYS.getrandom) dispatchTable.
Proof. apply (bool_decide_unpack _). vm_compute. exact I. Qed.

Lemma dispatchTable_shared_class :
  Forall (λ p, Forall (λ q, p.2 = q.2 → p.1 ≠ q.1 →
                            p.2 = writeSystemCall
                            ∧ (p.1 = SYS.write ∧ q.1 = SYS.writev
                               ∨ p.1 = SYS.writev ∧ q.1 = SYS.write))
                      dispatchTable) dispatchTable.
Proof. apply (bool_decide_unpack _). vm_compute. exact I. Qed.

Lemma bind_returns {A B} (m : M A) (f : A → M B) w b w' :
  (m ≫= f) w = Ret b w' → ∃ a w1, m w = Ret a w1 ∧ f a w1 = Ret b w'.
Proof.
  rewrite bind_unfold. destruct (m w) as [a w1|h w1]; [eauto | discriminate].
Qed.

(** X1: the dispatcher succeeds exactly on the labels of its switch, which
    are distinct and lie between 0 and 318 (getrandom); the handler it
    makes carries the number and the name it was given; and two numbers get
    a handler of the same class only if they are write and writev. *)
Theorem getSystemCall_lookup :
  NoDup dispatchTable.*1
  ∧ (∀ n k, switch_case n dispatchTable = Some k ↔ (n, k) ∈ dispatchTable)
  ∧ (∀ n name w,
       (∃ k, (n, k) ∈ dispatchTable
             ∧ getSystemCall n name w = Ret (mkSystemCall n name k) w)
       ∨ ((n ∉ dispatchTable.*1)
          ∧ getSystemCall n name w
            = Halt (runtime_error ("Missing case for system call: " +:+ name
                                   +:+ " this is a bug!")) w))
  ∧ (∀ n k, (n, k) ∈ dispatchTable → 0 ≤ n ≤ 318)
  ∧ (∀ n m k, (n, k) ∈ dispatchTable → (m, k) ∈ dispatchTable → n ≠ m →
              k = writeSystemCall
              ∧ (n = SYS.write ∧ m = SYS.writev
                 ∨ n = SYS.writev ∧ m = SYS.write)).
Proof.
  split; [exact dispatchTable_NoDup |]. split; [| split; [| split]].
  - intros n k. split; [apply switch_case_Some |].
    apply switch_case_elem_of, dispatchTable_NoDup.
  - intros n name w. unfold getSystemCall.
    destruct (switch_case n dispatchTable) as [k|] eqn:Hk.
    + left. exists k. split; [by apply switch_case_Some | reflexivity].
    + right. split; [by apply switch_case_None | reflexivity].
  - intros n k Hin.
    exact (proj1 (Forall_forall _ _) dispatchTable_range (n, k) Hin).
  - intros n m k Hn Hm Hne.
    pose proof (proj1 (Forall_forall _ _) dispatchTable_shared_class
                      (n, k) Hn) as H.
    exact (proj1 (Forall_forall _ _) H (m, k) Hm eq_refl Hne).
Qed.

Section MorePreSystemCall.
Context {P : platform}.

(** X2: every number the dispatcher has a case for is at most 318, so with
    [SYSTEM_CALL_COUNT] at 318 or more the range check of
    [handlePreSystemCall] never fails: the handler behaves as the table
    read, the dispatcher, the store and the pre-hook alone. *)
Theorem range_check_never_fails cur w :
  318 ≤ SYSTEM_CALL_COUNT →
  let n := to_int (orig_rax (tracer (exe w))) in
  handlePreSystemCall cur w
  = (name ← systemCallMappings_at n;
     c ← getSystemCall n name;
     states_update cur (set_systemcall (Some c));;
     interceptSystemCall cur) w.
Proof.
  intros Hcount n. unfold handlePreSystemCall, getSystemCall.
  unfold_monad. simpl. fold n.
  destruct (systemCallMappings_at n w) as [name w0|]; [| reflexivity].
  destruct (switch_case n dispatchTable) as [k|] eqn:Hk; [| reflexivity].
  simpl. destruct (states (exe w0) !! cur); [| reflexivity]. simpl.
  assert (Hn : 0 ≤ n ≤ 318).
  { apply switch_case_Some in Hk.
    exact (proj1 (Forall_forall _ _) dispatchTable_range (n, k) Hk). }
  unfold unknownSystemCallNumber.
  destruct (Z.ltb_spec n 0); [lia |].
  destruct (Z.ltb_spec SYSTEM_CALL_COUNT n); [lia |]. reflexivity.
Qed.

Lemma to_uint16_range v : 0 ≤ to_uint16 v < 65536.
Proof. unfold to_uint16. apply Z.mod_pos_bound. reflexivity. Qed.

(** X3: when the low 16 bits of the seccomp event message are 0x7FFF,
    [handleSeccomp] reads the registers and fails with "No filter rule for
    system call: " and the name the table has for the low 16 bits of the
    system-call number (reading outside the table if it has none); the
    dispatcher and the hooks are not reached, and the registry, the stack
    and the kernel are left as they were. *)
Theorem handleSeccomp_no_filter_rule w :
  to_uint16 (stop_msg (lastStop (os w))) = INT16_MAX →
  let n := to_uint16 (stop_orig_rax (lastStop (os w))) in
  let w' := {| exe := set_tracer (mkPtracer (stop_orig_rax (lastStop (os w))))
                                 (exe w);
               os := os w |} in
  handleSeccomp w
  = match systemCallMappings !! Z.to_nat n with
    | Some name =>
        Halt (runtime_error ("No filter rule for system call: " +:+ name)) w'
    | None => Halt undefined_behaviour w'
    end.
Proof.
  intros Hmsg n w'. unfold handleSeccomp, systemCallMappings_at.
  unfold_monad. simpl. rewrite Hmsg. simpl. fold n.
  pose proof (to_uint16_range (stop_orig_rax (lastStop (os w)))) as Hn.
  fold n in Hn. destruct (Z.ltb_spec n 0); [lia |].
  destruct (systemCallMappings !! Z.to_nat n); reflexivity.
Qed.

(** X4: what [handlePreSystemCall] returns, the request for a post-hook
    stop: false after the fork reconciler (fork, vfork, clone); otherwise
    true on a kernel before 4.8, true at debug level 4 or more, and the
    answer of the handler's pre-hook in the remaining case. *)
Theorem handlePreSystemCall_returns cur w b w' :
  handlePreSystemCall cur w = Ret b w' →
  let n := to_int (orig_rax (tracer (exe w))) in
  ∃ name k s hb s' t',
    systemCallMappings !! Z.to_nat n = Some name
    ∧ switch_case n dispatchTable = Some k
    ∧ states (exe w) !! cur = Some s
    ∧ handleDetPre (mkSystemCall n name k)
                   (set_systemcall (Some (mkSystemCall n name k)) s)
                   (tracer (exe w))
      = Hooked hb s' t'
    ∧ b = if is_fork_call name then false
          else if oldKernel then true
          else if 4 <=? debugLevel (exe w) then true else hb.
Proof.
  intros Hrun n. rewrite handlePreSystemCall_run in Hrun. fold n in Hrun.
  revert Hrun.
  destruct (n <? 0); [intros ?; discriminate |].
  destruct (systemCallMappings !! Z.to_nat n) as [name|];
    [| intros ?; discriminate].
  destruct (switch_case n dispatchTable) as [k|]; [| intros ?; discriminate].
  destruct (states (exe w) !! cur) as [s|]; [| intros ?; discriminate].
  cbv zeta.
  destruct (unknownSystemCallNumber n); [intros ?; discriminate |].
  unfold interceptSystemCall, current_systemcall, call_hook, handler_stored.
  unfold_monad. simpl. repeat (rewrite lookup_insert_eq; simpl).
  destruct (handleDetPre _ _ _) as [hb s' t'|] eqn:Hhook;
    [| intros ?; discriminate].
  simpl. intros Hrun. exists name, k, s, hb, s', t'.
  split; [reflexivity |]. split; [reflexivity |]. split; [reflexivity |].
  split; [exact Hhook |].
  unfold is_fork_call. simpl.
  destruct (bool_decide _ || bool_decide _ || bool_decide _).
  - revert Hrun.
    repeat match goal with
           | |- context [match ?x with Ret _ _ => _ | Halt _ _ => _ end] =>
               destruct x as [[] ?|]; simpl
           | |- context [match ?x with Ret _ _ => _ | Halt _ _ => _ end] =>
               destruct x; simpl
           end; try discriminate; congruence.
  - revert Hrun. destruct oldKernel; simpl.
    + rewrite lookup_insert_eq. simpl. congruence.
    + congruence.
Qed.

End MorePreSystemCall.

Section MoreSupervisor.
Context {P : platform}.

(** X5: how [getNextEvent] fails.  With [nextPid] not registered it throws
    [out_of_range] before anything is done.  Otherwise the tracee is
    resumed and the slot cleared first: with no answer from the kernel the
    call blocks, and on a wait that returns -1 it throws "waitpid failed:"
    with the error text, [traceesPid] being -1 by then. *)
Theorem getNextEvent_failures currentPid ptraceSystemcall w :
  (states (exe w) !! nextPid (exe w) = None →
     getNextEvent currentPid ptraceSystemcall w = Halt out_of_range w)
  ∧ (∀ s, states (exe w) !! nextPid (exe w) = Some s →
          script (os w) = [] →
          ∃ w', getNextEvent currentPid ptraceSystemcall w = Halt blocked w'
                ∧ resumed (os w')
                  = mkResume (if ptraceSystemcall then PTRACE_SYSCALL
                              else PTRACE_CONT)
                             currentPid (signalToDeliver s) (nextPid (exe w))
                    :: resumed (os w)
                ∧ pending w' (nextPid (exe w)) = Some 0
                ∧ traceesPid (exe w') = traceesPid (exe w))
  ∧ (∀ s r rest, states (exe w) !! nextPid (exe w) = Some s →
                 script (os w) = r :: rest →
                 stop_pid r = -1 →
                 getNextEvent currentPid ptraceSystemcall w
                 = Halt (runtime_error ("waitpid failed:" +:+ stop_strerror r))
                        (resumed_and_waited currentPid ptraceSystemcall
                                            s r rest w)
                 ∧ traceesPid (exe (resumed_and_waited
                                      currentPid ptraceSystemcall s r rest w))
                   = -1).
Proof.
  split; [| split].
  - intros Hs. unfold getNextEvent. unfold_monad. simpl. by rewrite Hs.
  - intros s Hs Hscript. unfold getNextEvent. unfold_monad.
    simpl. rewrite Hs. simpl. rewrite Hs. simpl. rewrite Hscript. simpl.
    eexists. split; [reflexivity |]. simpl. split; [reflexivity |].
    split; [| reflexivity]. unfold pending. simpl.
    by rewrite lookup_insert_eq.
  - intros s r rest Hs Hscript Hpid.
    rewrite (getNextEvent_run _ _ _ _ _ _ Hs Hscript), Hpid. simpl.
    split; [reflexivity | exact Hpid].
Qed.

(** X6: [handleExit] erases the State of the tracee that exited and then
    takes the next tracee from the top of the ancestor stack.  When the two
    are the same tracee, the next turn of the loop throws [out_of_range]
    at once, without resuming anything. *)
Theorem exit_of_stack_top_fails w top rest :
  processHier (exe w) = top :: rest →
  traceesPid (exe w) = top →
  ∃ w1, handleExit w = Ret tt w1
        ∧ nextPid (exe w1) = top
        ∧ states (exe w1) !! top = None
        ∧ exitLoop (exe w1) = exitLoop (exe w)
        ∧ (∀ c, runIteration c w1 = Halt out_of_range w1)
        ∧ (∀ fuel c, exitLoop (exe w) = false →
                     runLoop (S fuel) c w1 = Some (Halt out_of_range w1)).
Proof.
  intros Hh Ht. unfold handleExit. unfold_monad. rewrite Hh, Ht. simpl.
  eexists. split; [reflexivity |]. simpl.
  split; [reflexivity |]. split; [apply lookup_delete_eq |].
  split; [reflexivity |].
  match goal with
  | |- (∀ c, runIteration c ?w1 = _) ∧ _ =>
      assert (Hturn : ∀ c, runIteration c w1 = Halt out_of_range w1)
  end.
  { intros c. unfold runIteration, getNextEvent. unfold_monad. simpl.
    rewrite lookup_delete_eq. reflexivity. }
  split; [exact Hturn |].
  intros fuel c Hflag. simpl. rewrite Hflag, Hturn. reflexivity.
Qed.

(** X7: a fork and the child's exit undo each other.  When the reconciler
    has registered a child that was not registered before, [handleExit]
    for that child restores the registry and the ancestor stack to what
    they were before the fork, and the next tracee to resume is the parent
    the reconciler pushed. *)
Theorem fork_then_exit_round_trip e w w1 :
  handleFork e w = Ret tt w1 →
  let child := nextPid (exe w1) in
  states (exe w) !! child = None →
  ∃ parent w2,
    processHier (exe w1) = parent :: processHier (exe w)
    ∧ handleExit (stopped_as child w1) = Ret tt w2
    ∧ states (exe w2) = states (exe w)
    ∧ processHier (exe w2) = processHier (exe w)
    ∧ nextPid (exe w2) = parent
    ∧ exitLoop (exe w2) = exitLoop (exe w).
Proof.
  intros Hfork child Hnew.
  destruct (handleFork_Ret_inv _ _ _ Hfork) as [Hst _]. fold child in Hst.
  assert (Hstack : ∃ parent,
             processHier (exe w1) = parent :: processHier (exe w)
             ∧ exitLoop (exe w1) = exitLoop (exe w)).
  { revert Hfork.
    unfold handleFork, handleForkSignal, handleForkEvent. unfold_monad.
    destruct e; simpl; try discriminate;
      destruct (script (os w)) as [|r rest]; simpl; try discriminate;
      repeat match goal with
             | |- context [if ?b then _ else _] => destruct b; simpl
             end; try discriminate;
      intros [= <-]; simpl; eauto. }
  destruct Hstack as (parent & Hh & Hflag).
  exists parent. unfold handleExit, stopped_as. unfold_monad. simpl.
  rewrite Hh. simpl. eexists. split; [reflexivity |].
  split; [reflexivity |]. simpl.
  split; [| split; [reflexivity | split; [reflexivity | exact Hflag]]].
  rewrite Hst. unfold emplace. rewrite Hnew. by apply delete_insert_id.
Qed.

(** X10: [callPostHook] belongs to the loop, not to a tracee.  Only a
    seccomp event and a syscall-stop set it; every other event leaves it as
    it was.  So when a tracee exits while a post-hook stop is requested and
    a registered ancestor waits on the stack, that ancestor is resumed
    next, in the mode requested for the tracee that exited. *)
Theorem callPostHook_carried e status c w :
  (∀ c' w', dispatch e status c w = Ret c' w' →
     (e ≠ ptraceEvent.seccomp → e ≠ ptraceEvent.syscall → c' = c)
     ∧ (e = ptraceEvent.syscall → oldKernel = false → c' = false)
     ∧ (e = ptraceEvent.syscall → oldKernel = true →
        ∃ s, states (exe w) !! traceesPid (exe w) = Some s
             ∧ c' = isPreExit s))
  ∧ (e = ptraceEvent.exit ∨ e = ptraceEvent.terminatedBySignal →
     ∀ top rest s,
       processHier (exe w) = top :: rest →
       top ≠ traceesPid (exe w) →
       states (exe w) !! top = Some s →
       ∃ w', dispatch e status c w = Ret c w'
             ∧ nextPid (exe w') = top
             ∧ ∃ newer,
                 resumed (os (final (runIteration c w')))
                 = newer ++ mkResume (if c then PTRACE_SYSCALL
                                      else PTRACE_CONT)
                                     top (signalToDeliver s) top
                            :: resumed (os w)).
Proof.
  split.
  - intros c' w' Hd. split; [| split].
    + intros H1 H2. revert Hd. unfold dispatch, handleClone, handleExecve.
      unfold_monad.
      destruct e; try contradiction; simpl;
        repeat match goal with
               | |- context [match ?x with Ret _ _ => _ | Halt _ _ => _ end] =>
                   destruct x; simpl
               end; try discriminate; congruence.
    + intros -> Hk. revert Hd. unfold dispatch. unfold_monad. simpl.
      rewrite Hk.
      repeat match goal with
             | |- context [match ?x with Ret _ _ => _ | Halt _ _ => _ end] =>
                 destruct x; simpl
             | |- context [match ?x with Some _ => _ | None => _ end] =>
                 destruct x; simpl
             end; try discriminate; congruence.
    + intros -> Hk. revert Hd. unfold dispatch. unfold_monad. simpl.
      rewrite Hk.
      destruct (states (exe w) !! traceesPid (exe w)) as [s|];
        [| discriminate].
      simpl. intros Hd. exists s. split; [reflexivity |]. revert Hd.
      destruct (isPreExit s); simpl.
      * repeat match goal with
               | |- context [match ?x with Ret _ _ => _ | Halt _ _ => _ end] =>
                   destruct x; simpl
               | |- context [match ?x with Some _ => _ | None => _ end] =>
                   destruct x; simpl
               end; try discriminate; congruence.
      * repeat match goal with
               | |- context [match ?x with Ret _ _ => _ | Halt _ _ => _ end] =>
                   destruct x; simpl
               | |- context [match ?x with Some _ => _ | None => _ end] =>
                   destruct x; simpl
               end; try discriminate; congruence.
  - intros He top rest s Hh Hne Hs.
    assert (Hrun : dispatch e status c w = (handleExit;; mret c) w)
      by (destruct He as [-> | ->]; reflexivity).
    rewrite Hrun. unfold handleExit. unfold_monad. rewrite Hh. simpl.
    eexists. split; [reflexivity |]. split; [reflexivity |].
    match goal with
    | |- context [runIteration c ?w1] => set (w' := w1)
    end.
    assert (Hs' : states (exe w') !! nextPid (exe w') = Some s).
    { simpl. rewrite lookup_delete_ne by done. exact Hs. }
    destruct (getNextEvent_resumes (nextPid (exe w')) c w' s Hs')
      as (Hlog & _ & _).
    destruct (runIteration_final c w') as [[newer Hnew] _].
    exists newer. rewrite Hnew, Hlog. reflexivity.
Qed.

Lemma first_match_termination status e :
  spec_first_match spec_priority status = Tag e →
  (e = ptraceEvent.exit → WIFEXITED status = true)
  ∧ (e = ptraceEvent.terminatedBySignal →
     WIFEXITED status = false ∧ WIFSTOPPED status = false
     ∧ WIFSIGNALED status = true).
Proof.
  unfold spec_priority, spec_first_match.
  repeat match goal with
         | |- context [if ?b then _ else _] => destruct b eqn:?
         end; simpl; intros [= <-]; split; intros; try discriminate; auto.
Qed.

(** The turn that sets the termination flag. *)
Lemma runIteration_ends c w c' w' :
  runIteration c w = Ret c' w' →
  exitLoop (exe w) = false → exitLoop (exe w') = true →
  processHier (exe w') = []
  ∧ traceesPid (exe w') = stop_pid (lastStop (os w'))
  ∧ nextPid (exe w') = traceesPid (exe w')
  ∧ (WIFEXITED (stop_status (lastStop (os w'))) = true
     ∨ WIFEXITED (stop_status (lastStop (os w'))) = false
       ∧ WIFSTOPPED (stop_status (lastStop (os w'))) = false
       ∧ WIFSIGNALED (stop_status (lastStop (os w'))) = true).
Proof.
  intros H H0 H1. destruct (runIteration_Ret_inv _ _ _ _ H)
    as (e & status & w0 & Hev & Hd).
  destruct (getNextEvent_Ret_inv _ _ _ _ _ _ Hev)
    as (s & r & rest & _ & _ & -> & Hmatch & ->).
  destruct (first_match_termination _ _ Hmatch) as [Hexit Hkill].
  assert (He : e = ptraceEvent.exit ∨ e = ptraceEvent.terminatedBySignal).
  { destruct (decide (e = ptraceEvent.exit)) as [| Hne1]; [by left |].
    destruct (decide (e = ptraceEvent.terminatedBySignal)) as [| Hne2];
      [by right |].
    destruct (steady_dispatch e (stop_status r) c Hne1 Hne2
                (stopped_tracee_next
                   (resumed_and_waited (nextPid (exe w)) c s r rest w)))
      as [Hflag _].
    rewrite Hd in Hflag. simpl in Hflag. congruence. }
  assert (Hrun : dispatch e (stop_status r) c
                   (stopped_tracee_next
                      (resumed_and_waited (nextPid (exe w)) c s r rest w))
                 = (handleExit;; mret c)
                     (stopped_tracee_next
                        (resumed_and_waited (nextPid (exe w)) c s r rest w)))
    by (destruct He as [-> | ->]; reflexivity).
  rewrite Hrun in Hd. revert Hd. unfold handleExit. unfold_monad. simpl.
  destruct (processHier (exe w)) as [|top tl] eqn:Hh; simpl;
    intros [= _ <-]; simpl in H1; [| congruence].
  simpl. rewrite Hh.
  split; [reflexivity |]. split; [reflexivity |]. split; [reflexivity |].
  destruct He as [-> | ->]; [left; by apply Hexit | right; by apply Hkill].
Qed.

(** X11: the supervisor returns only on a termination event seen with an
    empty ancestor stack.  When the loop is left normally, the last answer
    taken from the kernel is a normal exit or a death by signal of
    [traceesPid], and the ancestor stack is empty. *)
Theorem runLoop_returns_on_termination fuel c w w' :
  exitLoop (exe w) = false →
  runLoop fuel c w = Some (Ret tt w') →
  processHier (exe w') = []
  ∧ traceesPid (exe w') = stop_pid (lastStop (os w'))
  ∧ nextPid (exe w') = traceesPid (exe w')
  ∧ (WIFEXITED (stop_status (lastStop (os w'))) = true
     ∨ WIFEXITED (stop_status (lastStop (os w'))) = false
       ∧ WIFSTOPPED (stop_status (lastStop (os w'))) = false
       ∧ WIFSIGNALED (stop_status (lastStop (os w'))) = true).
Proof.
  revert c w. induction fuel as [|fuel IH]; intros c w Hflag; [discriminate |].
  simpl. rewrite Hflag.
  destruct (runIteration c w) as [c1 w1|h w1] eqn:Hit; [| discriminate].
  destruct (exitLoop (exe w1)) eqn:Hflag1; [| by apply IH].
  destruct fuel as [|fuel]; [discriminate |].
  simpl. rewrite Hflag1. intros [= <-].
  exact (runIteration_ends _ _ _ _ Hit Hflag Hflag1).
Qed.

Lemma runIteration_advances c w : advances w (final (runIteration c w)).
Proof.
  etrans; [| apply runIteration_final].
  apply steady_advances, steady_getNextEvent.
Qed.

Lemma runLoop_advances fuel c w o :
  runLoop fuel c w = Some o → advances w (final o).
Proof.
  revert c w. induction fuel as [|fuel IH]; intros c w; [discriminate |].
  simpl. destruct (exitLoop (exe w)); [by intros [= <-] |].
  pose proof (runIteration_advances c w) as Hadv.
  destruct (runIteration c w) as [c1 w1|h w1]; simpl in Hadv.
  - intros Hrest. etrans; [exact Hadv | by eapply IH].
  - by intros [= <-].
Qed.

(** X12: the first thing a run does is resume the starting process, in
    continue mode and with no signal: that request is the oldest one on
    the kernel's record, however the run goes on. *)
Theorem first_resume_is_starting_process debugLevel startingPid k :
  ∃ newer,
    resumed (os (final (runProgram
                          {| exe := execution_init debugLevel startingPid;
                             os := k |})))
    = newer ++ mkResume PTRACE_CONT startingPid 0 startingPid :: resumed k.
Proof.
  set (w := {| exe := execution_init debugLevel startingPid; os := k |}).
  pose proof (runProgram_runLoop w) as Hrun. simpl in Hrun.
  destruct (getNextEvent_resumes startingPid false w (freshState startingPid))
    as (Hlog & _ & _); [apply lookup_singleton_eq |].
  destruct (runIteration_final false w) as [[newer1 Hnew1] _].
  change (nextPid (exe w)) with startingPid in Hnew1.
  rewrite Hlog in Hnew1.
  destruct (runIteration false w) as [c1 w1|h w1] eqn:Hit; simpl in Hnew1.
  - destruct (runLoop_advances _ _ _ _ Hrun) as [[newer2 Hnew2] _].
    exists (newer2 ++ newer1). rewrite Hnew2, Hnew1. by rewrite <- app_assoc.
  - injection Hrun as <-. exists newer1. exact Hnew1.
Qed.

End MoreSupervisor.

(** * Further properties *)

#[local] Instance keeps_entries_preorder : PreOrder keeps_entries.
Proof.
  split; [by intros w p | intros w1 w2 w3 H1 H2 p Hp; by apply H2, H1].
Qed.

#[local] Instance pushes_none_preorder : PreOrder (pushes 0).
Proof.
  split.
  - intros w. exists []. split; [reflexivity | simpl; lia].
  - intros w1 w2 w3 (p1 & H1 & L1) (p2 & H2 & L2).
    destruct p1; [| simpl in L1; lia]. destruct p2; [| simpl in L2; lia].
    exists []. split; [by rewrite H2, H1 | simpl; lia].
Qed.

#[local] Instance resumed_next_only_preorder : PreOrder resumed_next_only.
Proof.
  split.
  - intros w. exists []. split; [reflexivity | constructor].
  - intros w1 w2 w3 (n1 & H1 & F1) (n2 & H2 & F2). exists (n2 ++ n1).
    split; [rewrite H2, H1; apply app_assoc | by apply Forall_app].
Qed.

Lemma final_bind {A B} (m : M A) (f : A → M B) w :
  final ((m ≫= f) w)
  = match m w with
    | Ret a w1 => final (f a w1)
    | Halt _ w1 => w1
    end.
Proof. rewrite bind_unfold. by destruct (m w). Qed.

(** A relation on worlds that looks at the fields of [execution] only is
    respected by the steps that leave those alone. *)
Section FieldFrames.
Context (R : relation world) `{!PreOrder R}.

Lemma respects_same_exe {A} (m : M A) :
  (∀ w w', exe w' = exe w → R w w') →
  (∀ w, exe (final (m w)) = exe w) → respects R m.
Proof. intros HR Hm w. apply HR, Hm. Qed.

Lemma doPtrace_resume_exe mode pid sig w :
  exe (final (doPtrace_resume mode pid sig w)) = exe w.
Proof. reflexivity. Qed.

Lemma waitpid_exe pid w : exe (final (waitpid pid w)) = exe w.
Proof. unfold waitpid. by destruct (script (os w)). Qed.

End FieldFrames.

(** Walks through a computation down to [modify], [updateState],
    [doPtrace_resume] and [waitpid], which [prim] must settle; [known]
    closes calls whose frame is established. *)
Ltac frame_walk prim known :=
  repeat first
    [ known
    | apply respects_ret; apply _ | apply respects_throw; apply _
    | apply respects_gets; apply _
    | apply respects_states_at; apply _
    | apply respects_getEventMessage; apply _
    | apply respects_getSystemCall; apply _
    | apply respects_systemCallMappings_at; apply _
    | apply respects_current_systemcall; apply _
    | prim
    | apply respects_bind; [apply _ | | intros]
    | progress cbv zeta
    | match goal with
      | |- respects _ (if ?b then _ else _) => destruct b
      | |- respects _ (match ?x with _ => _ end) => destruct x
      end ].

Lemma is_Some_insert (m : gmap Z state) pid s p :
  is_Some (m !! p) → is_Some (<[pid := s]> m !! p).
Proof.
  intros H. destruct (decide (pid = p)) as [-> | Hne].
  - rewrite lookup_insert_eq. eauto.
  - by rewrite lookup_insert_ne.
Qed.

Lemma is_Some_emplace (m : gmap Z state) pid s p :
  is_Some (m !! p) → is_Some (emplace pid s m !! p).
Proof.
  intros H. unfold emplace. destruct (m !! pid); [done |].
  by apply is_Some_insert.
Qed.

Section RegistryAndStack.
Context {P : platform}.

Ltac keeps_prim :=
  solve [ apply respects_same_exe;
            [intros ? ? Heq ? ?; by rewrite Heq
            | first [apply doPtrace_resume_exe | apply waitpid_exe]]
        | intros ? ? ?; simpl;
            first [assumption | by apply is_Some_insert
                  | by apply is_Some_emplace] ].

Lemma keeps_getNextEvent cur flag :
  respects keeps_entries (getNextEvent cur flag).
Proof. unfold getNextEvent. frame_walk keeps_prim fail. Qed.

Lemma keeps_handleFork e : respects keeps_entries (handleFork e).
Proof.
  unfold handleFork, handleForkEvent, handleForkSignal.
  frame_walk keeps_prim fail.
Qed.

Lemma keeps_interceptSystemCall cur :
  respects keeps_entries (interceptSystemCall cur).
Proof.
  unfold interceptSystemCall.
  frame_walk keeps_prim ltac:(first [ apply keeps_getNextEvent
                                    | apply keeps_handleFork ]).
Qed.

Lemma keeps_handleSeccomp : respects keeps_entries handleSeccomp.
Proof.
  unfold handleSeccomp, handlePreSystemCall, getSystemCallNumber.
  frame_walk keeps_prim ltac:(apply keeps_interceptSystemCall).
Qed.

Lemma keeps_dispatch e status c :
  e ≠ ptraceEvent.exit → e ≠ ptraceEvent.terminatedBySignal →
  respects keeps_entries (dispatch e status c).
Proof.
  intros H1 H2.
  unfold dispatch, handleClone, handleExecve, handlePostSystemCall,
    handleSignal.
  destruct e; try contradiction; simpl;
    frame_walk keeps_prim ltac:(apply keeps_handleSeccomp).
Qed.

(** X8: a registered tracee is unregistered only by the turn that
    observes a termination event with ancestors on the stack, and then only
    if it is the tracee that event names; every other step of a turn, and
    every other turn, keeps it registered. *)
Theorem registry_entry_removed_only_at_exit c w p :
  is_Some (states (exe w) !! p) →
  let w' := final (runIteration c w) in
  is_Some (states (exe w') !! p)
  ∨ (p = traceesPid (exe w')
     ∧ processHier (exe w) ≠ []
     ∧ ∃ e status w0,
         getNextEvent (nextPid (exe w)) c w = Ret (e, status) w0
         ∧ (e = ptraceEvent.exit ∨ e = ptraceEvent.terminatedBySignal)).
Proof.
  intros Hp. cbv zeta.
  pose proof (keeps_getNextEvent (nextPid (exe w)) c w p Hp) as Hp0.
  destruct (getNextEvent (nextPid (exe w)) c w) as [[e status] w0|h w0]
    eqn:Hev; simpl in Hp0.
  - rewrite (runIteration_dispatch _ _ _ _ _ Hev).
    destruct (decide (e = ptraceEvent.exit ∨ e = ptraceEvent.terminatedBySignal))
      as [He | Hne].
    + assert (Hrun : dispatch e status c (stopped_tracee_next w0)
                     = (handleExit;; mret c) (stopped_tracee_next w0))
        by (destruct He as [-> | ->]; reflexivity).
      rewrite Hrun. unfold handleExit. unfold_monad. simpl.
      assert (Hh : processHier (exe w0) = processHier (exe w)).
      { destruct (getNextEvent_Ret_inv _ _ _ _ _ _ Hev)
          as (s & r & rest & _ & _ & _ & _ & ->). reflexivity. }
      rewrite Hh. destruct (processHier (exe w)) as [|top tl]; simpl.
      * by left.
      * destruct (decide (p = traceesPid (exe w0))) as [-> | Hneq].
        -- right. split; [reflexivity |]. split; [discriminate |]. eauto.
        -- left. by rewrite lookup_delete_ne.
    + left. apply (keeps_dispatch e status c); [tauto | tauto |].
      exact Hp0.
  - left. unfold runIteration. unfold_monad. simpl. rewrite Hev. exact Hp0.
Qed.

Ltac stack_prim :=
  solve [ apply respects_same_exe;
            [intros ? ? Heq; exists []; rewrite Heq; split;
               [reflexivity | simpl; lia]
            | first [apply doPtrace_resume_exe | apply waitpid_exe]]
        | intros ?; exists []; split; [reflexivity | simpl; lia] ].

Lemma stack_getNextEvent cur flag : respects (pushes 0) (getNextEvent cur flag).
Proof. unfold getNextEvent. frame_walk stack_prim fail. Qed.

Lemma pushes_weaken {A} (m : M A) :
  respects (pushes 0) m → respects (pushes 1) m.
Proof. intros H w. destruct (H w) as (p & Hp & L). exists p. split; [done | lia]. Qed.

Lemma pushes_bind_01 {A B} (m : M A) (f : A → M B) :
  respects (pushes 0) m → (∀ a, respects (pushes 1) (f a)) →
  respects (pushes 1) (m ≫= f).
Proof.
  intros Hm Hf w. rewrite final_bind. specialize (Hm w).
  destruct (m w) as [a w1|h w1]; simpl in Hm;
    destruct Hm as (p1 & H1 & L1); (destruct p1; [| simpl in L1; lia]).
  - destruct (Hf a w1) as (p2 & H2 & L2). exists p2.
    split; [by rewrite H2, H1 | done].
  - exists []. split; [done | simpl; lia].
Qed.

Lemma pushes_bind_10 {A B} (m : M A) (f : A → M B) :
  respects (pushes 1) m → (∀ a, respects (pushes 0) (f a)) →
  respects (pushes 1) (m ≫= f).
Proof.
  intros Hm Hf w. rewrite final_bind. specialize (Hm w).
  destruct (m w) as [a w1|h w1]; simpl in Hm; [| exact Hm].
  destruct Hm as (p1 & H1 & L1).
  destruct (Hf a w1) as (p2 & H2 & L2). destruct p2; [| simpl in L2; lia].
  exists p1. split; [by rewrite H2, H1 | done].
Qed.

Lemma pushes_handleFork e : respects (pushes 1) (handleFork e).
Proof.
  intros w. unfold handleFork, handleForkSignal, handleForkEvent.
  unfold_monad.
  destruct e; simpl; try (exists []; split; [reflexivity | simpl; lia]);
    destruct (script (os w)) as [|r rest]; simpl;
    repeat match goal with
           | |- context [if ?b then _ else _] => destruct b; simpl
           end;
    first [ exists []; split; [reflexivity | simpl; lia]
          | eexists [_]; split; [reflexivity | simpl; lia] ].
Qed.

Lemma pushes_interceptSystemCall cur :
  respects (pushes 1) (interceptSystemCall cur).
Proof.
  unfold interceptSystemCall.
  apply pushes_bind_01; [frame_walk stack_prim fail | intros c0].
  apply pushes_bind_01; [frame_walk stack_prim fail | intros c].
  apply pushes_bind_01; [frame_walk stack_prim fail | intros b].
  apply pushes_bind_01; [frame_walk stack_prim fail | intros _].
  destruct (_ || _ || _).
  - apply pushes_bind_01;
      [frame_walk stack_prim ltac:(apply stack_getNextEvent) | intros _].
    apply pushes_bind_01; [frame_walk stack_prim fail | intros t].
    apply pushes_bind_01; [apply stack_getNextEvent | intros [e status]].
    apply pushes_bind_10; [apply pushes_handleFork |].
    intros _. frame_walk stack_prim fail.
  - apply pushes_weaken. frame_walk stack_prim fail.
Qed.

Lemma pushes_handleSeccomp : respects (pushes 1) handleSeccomp.
Proof.
  unfold handleSeccomp.
  apply pushes_bind_01; [frame_walk stack_prim fail | intros t].
  apply pushes_bind_01; [frame_walk stack_prim fail | intros msg].
  cbv zeta. destruct (_ =? _).
  - apply pushes_weaken. unfold getSystemCallNumber.
    frame_walk stack_prim fail.
  - apply pushes_bind_01; [frame_walk stack_prim fail | intros _].
    apply pushes_bind_01; [frame_walk stack_prim fail | intros _].
    unfold handlePreSystemCall, getSystemCallNumber.
    apply pushes_bind_01; [frame_walk stack_prim fail | intros n].
    cbv zeta.
    apply pushes_bind_01; [frame_walk stack_prim fail | intros name].
    apply pushes_bind_01; [frame_walk stack_prim fail | intros c].
    apply pushes_bind_01; [frame_walk stack_prim fail | intros _].
    destruct (unknownSystemCallNumber _);
      [apply pushes_weaken; frame_walk stack_prim fail |].
    apply pushes_interceptSystemCall.
Qed.

Lemma pushes_dispatch e status c :
  e ≠ ptraceEvent.exit → e ≠ ptraceEvent.terminatedBySignal →
  respects (pushes 1) (dispatch e status c).
Proof.
  intros H1 H2. unfold dispatch.
  apply pushes_bind_01; [frame_walk stack_prim fail | intros t].
  destruct e; try contradiction; simpl;
    first [ apply pushes_handleSeccomp
          | apply pushes_weaken;
            unfold handleClone, handleExecve, handlePostSystemCall,
              handleSignal;
            frame_walk stack_prim fail ].
Qed.

(** X9: a turn of the loop leaves the ancestor stack as it was, pushes one
    tracee on it, or pops its top; it never does more. *)
Theorem stack_moves_by_one c w :
  let h := processHier (exe w) in
  let h' := processHier (exe (final (runIteration c w))) in
  h' = h ∨ (∃ parent, h' = parent :: h) ∨ (∃ top, h = top :: h').
Proof.
  cbv zeta.
  destruct (stack_getNextEvent (nextPid (exe w)) c w) as (p0 & H0 & L0).
  destruct p0; [| simpl in L0; lia]. simpl in H0.
  destruct (getNextEvent (nextPid (exe w)) c w) as [[e status] w0|h w0]
    eqn:Hev; simpl in H0.
  - rewrite (runIteration_dispatch _ _ _ _ _ Hev).
    destruct (decide (e = ptraceEvent.exit ∨ e = ptraceEvent.terminatedBySignal))
      as [He | Hne].
    + assert (Hrun : dispatch e status c (stopped_tracee_next w0)
                     = (handleExit;; mret c) (stopped_tracee_next w0))
        by (destruct He as [-> | ->]; reflexivity).
      rewrite Hrun. unfold handleExit. unfold_monad. simpl.
      rewrite H0. destruct (processHier (exe w)) as [|top tl] eqn:Hh; simpl.
      * left. by rewrite H0.
      * right. right. eauto.
    + destruct (pushes_dispatch e status c) with (w := stopped_tracee_next w0)
        as (p1 & H1 & L1); [tauto | tauto |].
      simpl in H1. rewrite H0 in H1.
      destruct p1 as [|parent [|]]; [by left | | simpl in L1; lia].
      right. left. eauto.
  - left. unfold runIteration. unfold_monad. simpl. rewrite Hev. exact H0.
Qed.

End RegistryAndStack.

#[local] Instance same_target_preorder : PreOrder same_target.
Proof.
  split.
  - by intros w.
  - intros w1 w2 w3 (H1 & H2 & H3) (H4 & H5 & H6).
    unfold same_target. by rewrite H4, H5, H6.
Qed.

Lemma same_target_resumed_next_only w w' :
  same_target w w' → resumed_next_only w w'.
Proof. intros (_ & _ & H). exists []. split; [exact H | constructor]. Qed.

Lemma same_log_resumed_next_only w w0 w' :
  resumed_next_only w w0 → resumed (os w') = resumed (os w0) →
  resumed_next_only w w'.
Proof. intros (n & H & F) Heq. exists n. by rewrite Heq. Qed.

Lemma aligned_bind {A B} (m : M A) (f : A → M B) :
  respects same_target m →
  (∀ a w, aligned w → resumed_next_only w (final (f a w))) →
  ∀ w, aligned w → resumed_next_only w (final ((m ≫= f) w)).
Proof.
  intros Hm Hf w Hal. rewrite final_bind. specialize (Hm w).
  destruct (m w) as [a w1|h w1]; simpl in Hm.
  - destruct Hm as (H1 & H2 & H3).
    destruct (Hf a w1) as (n & Hn & F).
    { unfold aligned. by rewrite H1, H2. }
    exists n. by rewrite Hn, H3.
  - by apply same_target_resumed_next_only.
Qed.

Section ResumeTargets.
Context {P : platform}.

Ltac target_prim :=
  solve [ intros ?; unfold same_target; simpl; done ].

Ltac log_prim :=
  solve [ intros ?; exists []; split;
            [ first [ reflexivity
                    | unfold waitpid;
                      match goal with
                      | |- context [script (os ?w)] =>
                          by destruct (script (os w))
                      end ]
            | constructor ] ].

Lemma getNextEvent_targets c w :
  resumed_next_only w (final (getNextEvent (nextPid (exe w)) c w)).
Proof.
  destruct (states (exe w) !! nextPid (exe w)) as [s|] eqn:Hs.
  - destruct (getNextEvent_resumes (nextPid (exe w)) c w s Hs) as (H & _ & _).
    eexists [_]. split; [exact H |]. by constructor.
  - unfold getNextEvent. unfold_monad. simpl. rewrite Hs. simpl.
    exists []. split; [reflexivity | constructor].
Qed.

Lemma interceptSystemCall_targets cur :
  oldKernel = false →
  ∀ w, aligned w → resumed_next_only w (final (interceptSystemCall cur w)).
Proof.
  intros Hk. unfold interceptSystemCall. rewrite Hk. cbv iota.
  apply aligned_bind; [frame_walk target_prim fail | intros c0].
  cbv zeta.
  apply aligned_bind; [frame_walk target_prim fail | intros c].
  apply aligned_bind; [frame_walk target_prim fail | intros b].
  apply aligned_bind; [frame_walk target_prim fail | intros _].
  destruct (_ || _ || _).
  - apply aligned_bind; [frame_walk target_prim fail | intros _].
    intros w Hal. rewrite final_bind. simpl. rewrite final_bind.
    rewrite <- Hal.
    pose proof (getNextEvent_targets false w) as Hev.
    destruct (getNextEvent (nextPid (exe w)) false w) as [[e status] w0|h w0];
      simpl in Hev |- *; [| exact Hev].
    apply (same_log_resumed_next_only _ w0); [exact Hev |].
    rewrite final_bind. pose proof (handleFork_log e w0) as Hlog.
    by destruct (handleFork e w0).
  - intros w _. apply same_target_resumed_next_only.
    revert w. change (respects same_target
      (d ← gets debugLevel; mret (if 4 <=? d then true else b))).
    frame_walk target_prim fail.
Qed.

Lemma handleSeccomp_targets :
  oldKernel = false →
  ∀ w, aligned w → resumed_next_only w (final (handleSeccomp w)).
Proof.
  intros Hk. unfold handleSeccomp.
  apply aligned_bind; [frame_walk target_prim fail | intros t].
  apply aligned_bind; [frame_walk target_prim fail | intros msg].
  cbv zeta. destruct (_ =? _).
  - intros w _. apply same_target_resumed_next_only. revert w.
    match goal with |- ∀ w, same_target w (final (?m w)) =>
      change (respects same_target m) end.
    unfold getSystemCallNumber. frame_walk target_prim fail.
  - apply aligned_bind; [frame_walk target_prim fail | intros _].
    apply aligned_bind; [frame_walk target_prim fail | intros _].
    unfold handlePreSystemCall, getSystemCallNumber.
    apply aligned_bind; [frame_walk target_prim fail | intros n].
    cbv zeta.
    apply aligned_bind; [frame_walk target_prim fail | intros name].
    apply aligned_bind; [frame_walk target_prim fail | intros c].
    apply aligned_bind; [frame_walk target_prim fail | intros _].
    destruct (unknownSystemCallNumber _).
    + intros w _. exists []. split; [reflexivity | constructor].
    + by apply interceptSystemCall_targets.
Qed.

Lemma dispatch_targets e status c :
  oldKernel = false →
  ∀ w, aligned w → resumed_next_only w (final (dispatch e status c w)).
Proof.
  intros Hk.
  destruct (decide (e = ptraceEvent.seccomp)) as [-> | Hne].
  - intros w Hal. by apply handleSeccomp_targets.
  - intros w _. revert w.
    change (respects resumed_next_only (dispatch e status c)).
    unfold dispatch. rewrite Hk.
    destruct e; try contradiction; simpl;
      unfold handleClone, handleExecve, handlePostSystemCall, handleSignal,
        handleExit, call_hook, states_update;
      frame_walk log_prim fail.
Qed.

Lemma runIteration_targets c w :
  oldKernel = false → resumed_next_only w (final (runIteration c w)).
Proof.
  intros Hk. pose proof (getNextEvent_targets c w) as Hev.
  destruct (getNextEvent (nextPid (exe w)) c w) as [[e status] w0|h w0]
    eqn:Heq; simpl in Hev.
  - rewrite (runIteration_dispatch _ _ _ _ _ Heq).
    destruct (dispatch_targets e status c Hk (stopped_tracee_next w0))
      as (n & Hn & F); [reflexivity |].
    destruct Hev as (n0 & Hn0 & F0). exists (n ++ n0). split.
    + rewrite Hn. simpl. rewrite Hn0. by rewrite app_assoc.
    + by apply Forall_app.
  - unfold runIteration. unfold_monad. simpl. rewrite Heq. exact Hev.
Qed.

(** X13: on a recent kernel every resume request of the loop is for
    [nextPid], the tracee whose pending signal the request reads and
    clears: over any number of turns, and over a whole run, the requests
    added to the kernel's record all resume the tracee whose slot they
    read. *)
Theorem resumes_target_next_tracee :
  oldKernel = false →
  (∀ fuel c w o, runLoop fuel c w = Some o → resumed_next_only w (final o))
  ∧ (∀ w, resumed_next_only w (final (runProgram w))).
Proof.
  intros Hk.
  assert (Hloop : ∀ fuel c w o,
             runLoop fuel c w = Some o → resumed_next_only w (final o)).
  { induction fuel as [|fuel IH]; intros c w o; [discriminate |].
    simpl. destruct (exitLoop (exe w)); [by intros [= <-] |].
    pose proof (runIteration_targets c w Hk) as Hit.
    destruct (runIteration c w) as [c1 w1|h w1]; simpl in Hit.
    - intros Hrest. etrans; [exact Hit | by eapply IH].
    - by intros [= <-]. }
  split; [exact Hloop |].
  intros w. exact (Hloop _ _ _ _ (runProgram_runLoop w)).
Qed.

End ResumeTargets.

(** * The properties at concrete inputs *)


(** The run of a tracee that only exits ends with the flag set and the
    tracee's State still in the registry. *)
Lemma registry_not_empty_at_exit_witness :
  exitLoop (exe Linux.exit_only) = false
  ∧ exitLoop (exe (final (runProgram (P := Linux.recent) Linux.exit_only)))
    = true
  ∧ states (exe (final (runProgram (P := Linux.recent) Linux.exit_only))) ≠ ∅.
Proof.
  split; [reflexivity |].
  exact (proj1 (proj2 registry_not_empty_at_exit) Linux.recent
               Linux.exit_only
               (final (runProgram (P := Linux.recent) Linux.exit_only))
               eq_refl eq_refl).
Defined.

(** C2 as stated fails on that run: the supervisor has left its loop and
    the registry still holds one State, so its size goes 1, 1 and not
    1, 0.  When the exit_group call itself is reported by a seccomp stop,
    the supervisor fails on it (the dispatcher has no case for 231), again
    with one State in the registry. *)
Lemma registry_empty_iff_exited_counterexample :
  runProgram (P := Linux.recent) Linux.exit_only
  = Ret tt (final (runProgram (P := Linux.recent) Linux.exit_only))
  ∧ size (states (exe Linux.exit_only)) = 1%nat
  ∧ size (states (exe (final (runProgram (P := Linux.recent)
                                         Linux.exit_only)))) = 1%nat
  ∧ ¬ (states (exe (final (runProgram (P := Linux.recent) Linux.exit_only)))
       = ∅
       ↔ exitLoop (exe (final (runProgram (P := Linux.recent)
                                          Linux.exit_only))) = true)
  ∧ runProgram (P := Linux.recent) (Linux.one_syscall 231 7)
    = Halt (runtime_error
              "Missing case for system call: exit_group this is a bug!")
           (final (runProgram (P := Linux.recent) (Linux.one_syscall 231 7)))
  ∧ size (states (exe (final (runProgram (P := Linux.recent)
                                         (Linux.one_syscall 231 7))))) = 1%nat.
Proof.
  split; [reflexivity |]. split; [reflexivity |]. split; [reflexivity |].
  split; [| split; reflexivity].
  intros [_ Hempty].
  assert (H : states (exe (final (runProgram (P := Linux.recent)
                                             Linux.exit_only))) !! 1000
              = Some (freshState 1000)) by reflexivity.
  rewrite (Hempty eq_refl), lookup_empty in H. discriminate.
Qed.

(** System-call numbers 1000 and -1 are out of range; the failure is the
    read outside the name table, before any range check. *)
Lemma range_check_comes_after_lookup_witness :
  unknownSystemCallNumber (P := Linux.recent) 1000 = true
  ∧ handlePreSystemCall (P := Linux.recent) 1000
                        (Linux.stopped_in_syscall 1000)
    = Halt undefined_behaviour (Linux.stopped_in_syscall 1000)
  ∧ unknownSystemCallNumber (P := Linux.recent) (-1) = true
  ∧ handlePreSystemCall (P := Linux.recent) 1000
                        (Linux.stopped_in_syscall (-1))
    = Halt undefined_behaviour (Linux.stopped_in_syscall (-1)).
Proof.
  split; [reflexivity |]. split; [| split; [reflexivity |]].
  - destruct (proj2 (range_check_comes_after_lookup (P := Linux.recent) 1000
                       (Linux.stopped_in_syscall 1000) eq_refl))
      as [H | [(name & Hname & _) | (name & k & Hname & _)]].
    + exact H.
    + discriminate Hname.
    + discriminate Hname.
  - apply (proj1 (range_check_comes_after_lookup (P := Linux.recent) 1000
                    (Linux.stopped_in_syscall (-1)) eq_refl)).
    reflexivity.
Defined.

(** The parent's fork event came first: the child 1001 is the next tracee
    to resume, and the next turn resumes it. *)
Lemma child_runs_first_witness :
  handleFork (P := Linux.recent) ptraceEvent.fork Linux.fork_event_first
  = Ret tt (final (handleFork (P := Linux.recent) ptraceEvent.fork
                              Linux.fork_event_first))
  ∧ nextPid (exe (final (handleFork (P := Linux.recent) ptraceEvent.fork
                                    Linux.fork_event_first))) = 1001
  ∧ ∃ sig newer,
      resumed (os (final (runIteration (P := Linux.recent) false
                            (final (handleFork (P := Linux.recent)
                                      ptraceEvent.fork
                                      Linux.fork_event_first)))))
      = newer ++ [mkResume PTRACE_CONT 1001 sig 1001].
Proof.
  split; [reflexivity |].
  destruct (child_runs_first (P := Linux.recent) ptraceEvent.fork
              Linux.fork_event_first _ eq_refl) as (Hc & _ & _ & _ & Hnext).
  split; [exact (Hc (or_introl eq_refl)) |].
  exact (Hnext false).
Defined.

(** A tracee stopped by SIGUSR1: the signal is recorded for it, it is the
    next to resume, and over the whole run every resume request carries
    the resumed tracee's own signal. *)
Lemma signals_deferred_to_next_resume_witness :
  getNextEvent (P := Linux.recent) 1000 false Linux.signalled
  = Ret (ptraceEvent.signal, Linux.stopped 10)
        (final (getNextEvent (P := Linux.recent) 1000 false Linux.signalled))
  ∧ (∃ w1, runIteration (P := Linux.recent) false Linux.signalled
           = Ret false w1
           ∧ pending w1 1000 = Some 10
           ∧ nextPid (exe w1) = 1000
           ∧ resumed (os (final (getNextEvent (P := Linux.recent) 1000 true
                                              w1)))
             = mkResume PTRACE_SYSCALL 1000 10 1000 :: resumed (os w1))
  ∧ log_sound (final (runProgram (P := Linux.recent) Linux.signalled)).
Proof.
  split; [reflexivity |]. split.
  - destruct (proj1 (signals_deferred_to_next_resume (P := Linux.recent))
                false Linux.signalled (Linux.stopped 10) _ eq_refl)
      as (w1 & Hrun & Hpend & Hnext & _ & _ & Hres).
    + exists (freshState 1000). reflexivity.
    + exists w1. split; [exact Hrun |]. split; [exact Hpend |].
      split; [exact Hnext |].
      specialize (Hres true). cbv zeta in Hres. rewrite Hnext in Hres.
      exact (proj1 Hres).
  - apply (proj2 (proj2 (proj2 (proj2
             (signals_deferred_to_next_resume (P := Linux.recent)))))).
    + intros p s Hp _.
      change (({[1000 := freshState 1000]} : gmap Z state) !! p = Some s)
        in Hp.
      apply lookup_singleton_Some in Hp as [_ <-]. reflexivity.
    + constructor.
Defined.



(** getpid (39) is in the name table and has no case in the dispatcher:
    the message gives its name. *)
Lemma missing_handler_named_in_error_witness :
  handlePreSystemCall (P := Linux.recent) 1000 (Linux.stopped_in_syscall 39)
  = Halt (runtime_error "Missing case for system call: getpid this is a bug!")
         (Linux.stopped_in_syscall 39)
  ∧ occurs_in "getpid" "Missing case for system call: getpid this is a bug!"
    = true.
Proof.
  destruct (missing_handler_named_in_error (P := Linux.recent) 1000
              (Linux.stopped_in_syscall 39) "getpid")
    as (H1 & _ & H3).
  - vm_compute. discriminate.
  - reflexivity.
  - reflexivity.
  - split; [exact H1 | exact H3].
Defined.

(** C8 as stated fails for getpid: the supervisor fails, and the message
    of its failure does not name the number 39.  For 1000, which is outside
    the name table as well, the failure is the read outside the table and
    carries no message at all. *)
Lemma unknown_syscall_error_names_number_counterexample :
  switch_case 39 dispatchTable = None
  ∧ runProgram (P := Linux.recent) (Linux.one_syscall 39 0)
    = Halt (runtime_error
              "Missing case for system call: getpid this is a bug!")
           (final (runProgram (P := Linux.recent) (Linux.one_syscall 39 0)))
  ∧ names_number 39 "Missing case for system call: getpid this is a bug!"
    = false
  ∧ ¬ (∃ what w', runProgram (P := Linux.recent) (Linux.one_syscall 39 0)
                  = Halt (runtime_error what) w'
                  ∧ names_number 39 what = true)
  ∧ switch_case 1000 dispatchTable = None
  ∧ runProgram (P := Linux.recent) (Linux.one_syscall 1000 0)
    = Halt undefined_behaviour
           (final (runProgram (P := Linux.recent)
                              (Linux.one_syscall 1000 0))).
Proof.
  split; [reflexivity |]. split; [reflexivity |]. split; [reflexivity |].
  split; [| split; reflexivity].
  intros (what & w' & Hrun & Hnames).
  assert (Hwhat : what
                  = "Missing case for system call: getpid this is a bug!").
  { assert (H : runProgram (P := Linux.recent) (Linux.one_syscall 39 0)
                = Halt (runtime_error
                     "Missing case for system call: getpid this is a bug!")
                     (final (runProgram (P := Linux.recent)
                                        (Linux.one_syscall 39 0))))
      by reflexivity.
    rewrite H in Hrun. by injection Hrun as <- _. }
  subst what. discriminate Hnames.
Qed.

(** The child 1001 was not registered before the reconciler ran: it has no
    signal pending afterwards and is resumed with none, although its stop
    by SIGSTOP was observed. *)
Lemma fork_reconciler_records_no_signal_witness :
  states (exe Linux.fork_event_first) !! 1001 = None
  ∧ pending (final (handleFork (P := Linux.recent) ptraceEvent.fork
                               Linux.fork_event_first)) 1001 = Some 0
  ∧ res_sig <$> head (resumed (os (final
       (getNextEvent (P := Linux.recent) 1001 false
          (final (handleFork (P := Linux.recent) ptraceEvent.fork
                             Linux.fork_event_first))))))
    = Some 0.
Proof.
  split; [reflexivity |].
  destruct (proj2 (proj2 (proj2 (proj2
              (fork_reconciler_records_no_signal (P := Linux.recent)
                 ptraceEvent.fork Linux.fork_event_first))))
              _ eq_refl eq_refl) as [Hpend Hres].
  split; [exact Hpend | exact (Hres false)].
Defined.

(** With [SYSTEM_CALL_COUNT] at 329, number 329 passes the range check and
    goes to the name table and the dispatcher. *)
Lemma range_check_admits_SYSTEM_CALL_COUNT_witness :
  unknownSystemCallNumber (P := Linux.recent) 329 = false
  ∧ handlePreSystemCall (P := Linux.recent) 1000 (Linux.stopped_in_syscall 329)
    = (name ← systemCallMappings_at (P := Linux.recent) 329;
       c ← getSystemCall 329 name;
       states_update 1000 (set_systemcall (Some c));;
       interceptSystemCall (P := Linux.recent) 1000)
        (Linux.stopped_in_syscall 329).
Proof.
  destruct (range_check_admits_SYSTEM_CALL_COUNT (P := Linux.recent))
    as (_ & Hb & _ & Hrun).
  split.
  - apply Hb. vm_compute. discriminate.
  - apply (Hrun 1000 (Linux.stopped_in_syscall 329)).
    + vm_compute. discriminate.
    + reflexivity.
Defined.

(** ** The scenarios of the specification, run on the model *)

(** Scenario B: one system call with a post-hook, on a recent kernel and
    on an old one, where the entry stop is drained first. *)
Example scenario_one_syscall_recent :
  Linux.requests (runProgram (P := Linux.recent) Linux.one_read)
  = [(PTRACE_CONT, 1000, 0); (PTRACE_SYSCALL, 1000, 0);
     (PTRACE_CONT, 1000, 0)].
Proof. reflexivity. Qed.

Example scenario_one_syscall_old :
  Linux.requests (runProgram (P := Linux.old) Linux.one_read_old)
  = [(PTRACE_CONT, 1000, 0); (PTRACE_SYSCALL, 1000, 0);
     (PTRACE_SYSCALL, 1000, 0); (PTRACE_CONT, 1000, 0)].
Proof. reflexivity. Qed.

(** Scenarios C and D: whichever event of the race comes first, the child
    runs right after the fork, the parent after the child's exit (with its
    SIGCHLD delivered), and the run ends with an empty ancestor stack. *)
Example scenario_fork_either_order (event_first : bool) :
  Linux.requests (runProgram (P := Linux.recent)
                             (Linux.fork_then_exit event_first))
  = [(PTRACE_CONT, 1000, 0); (PTRACE_CONT, 1000, 0); (PTRACE_CONT, 1001, 0);
     (PTRACE_CONT, 1000, 0); (PTRACE_CONT, 1000, 17)]
  ∧ processHier (exe (final (runProgram (P := Linux.recent)
                                        (Linux.fork_then_exit event_first))))
    = []
  ∧ exitLoop (exe (final (runProgram (P := Linux.recent)
                                     (Linux.fork_then_exit event_first))))
    = true.
Proof. destruct event_first; repeat split; reflexivity. Qed.

(** A clone event is not a tag the reconciler accepts. *)
Example scenario_clone_event :
  runProgram (P := Linux.recent) Linux.clone_event
  = Halt (runtime_error "Expected signal after fork/vfork event!")
         (final (runProgram (P := Linux.recent) Linux.clone_event)).
Proof. reflexivity. Qed.

(** Scenario F: SIGUSR1 is injected on the resume that follows its stop. *)
Example scenario_signal_forwarded :
  Linux.requests (runProgram (P := Linux.recent) Linux.signalled)
  = [(PTRACE_CONT, 1000, 0); (PTRACE_CONT, 1000, 10)]
  ∧ runProgram (P := Linux.recent) Linux.signalled
    = Ret tt (final (runProgram (P := Linux.recent) Linux.signalled)).
Proof. split; reflexivity. Qed.

(** ** The further properties at concrete inputs *)

(** [read] (0) is a label of the switch, with the class of its handler,
    and 0 lies in the range of the labels. *)
Lemma getSystemCall_lookup_witness :
  switch_case SYS.read dispatchTable = Some readSystemCall
  ∧ (SYS.read, readSystemCall) ∈ dispatchTable
  ∧ 0 ≤ SYS.read ≤ 318.
Proof.
  split; [reflexivity |].
  destruct getSystemCall_lookup as (_ & Hcase & _ & Hrange & _).
  pose proof (proj1 (Hcase SYS.read readSystemCall) eq_refl) as Hin.
  split; [exact Hin | exact (Hrange _ _ Hin)].
Defined.

(** On Linux the table has 329 names: the range check cannot fail. *)
Lemma range_check_never_fails_witness :
  318 ≤ SYSTEM_CALL_COUNT (platform := Linux.recent)
  ∧ handlePreSystemCall (P := Linux.recent) 1000 (Linux.stopped_in_syscall 0)
    = (name ← systemCallMappings_at (P := Linux.recent) 0;
       c ← getSystemCall 0 name;
       states_update 1000 (set_systemcall (Some c));;
       interceptSystemCall (P := Linux.recent) 1000)
        (Linux.stopped_in_syscall 0).
Proof.
  assert (H : 318 ≤ SYSTEM_CALL_COUNT (platform := Linux.recent))
    by (vm_compute; discriminate).
  split; [exact H |].
  exact (range_check_never_fails (P := Linux.recent) 1000
           (Linux.stopped_in_syscall 0) H).
Defined.

(** A [getpid] (39) that no rule of the filter covers. *)
Lemma handleSeccomp_no_filter_rule_witness :
  to_uint16 (stop_msg (lastStop (os (Linux.unfiltered_call 39)))) = INT16_MAX
  ∧ handleSeccomp (P := Linux.recent) (Linux.unfiltered_call 39)
    = Halt (runtime_error "No filter rule for system call: getpid")
           {| exe := set_tracer (mkPtracer 39)
                                (exe (Linux.unfiltered_call 39));
              os := os (Linux.unfiltered_call 39) |}.
Proof.
  split; [reflexivity |].
  exact (handleSeccomp_no_filter_rule (P := Linux.recent)
           (Linux.unfiltered_call 39) eq_refl).
Defined.

(** A [read] at debug level 0 on a recent kernel: the request for a
    post-hook stop is the pre-hook's answer. *)
Lemma handlePreSystemCall_returns_witness :
  handlePreSystemCall (P := Linux.recent) 1000 (Linux.stopped_in_syscall 0)
  = Ret true (final (handlePreSystemCall (P := Linux.recent) 1000
                       (Linux.stopped_in_syscall 0)))
  ∧ ∃ name k s hb s' t',
      systemCallMappings (platform := Linux.recent) !! Z.to_nat 0 = Some name
      ∧ switch_case 0 dispatchTable = Some k
      ∧ states (exe (Linux.stopped_in_syscall 0)) !! 1000 = Some s
      ∧ handleDetPre (platform := Linux.recent) (mkSystemCall 0 name k)
                     (set_systemcall (Some (mkSystemCall 0 name k)) s)
                     (tracer (exe (Linux.stopped_in_syscall 0)))
        = Hooked hb s' t'
      ∧ true = if is_fork_call name then false
               else if oldKernel (platform := Linux.recent) then true
               else if 4 <=? debugLevel (exe (Linux.stopped_in_syscall 0))
                    then true else hb.
Proof.
  split; [reflexivity |].
  exact (handlePreSystemCall_returns (P := Linux.recent) 1000
           (Linux.stopped_in_syscall 0) true _ eq_refl).
Defined.

(** The first wait of a run fails, or never returns: the first process
    has been resumed by then. *)
Lemma getNextEvent_failures_witness :
  getNextEvent (P := Linux.recent) 1000 false Linux.wait_fails
  = Halt (runtime_error "waitpid failed:No child processes")
         (resumed_and_waited 1000 false (freshState 1000)
            (mkStop (-1) 0 0 0 "No child processes") [] Linux.wait_fails)
  ∧ ∃ w', getNextEvent (P := Linux.recent) 1000 false (Linux.boot 0 1000 [])
          = Halt blocked w'
          ∧ resumed (os w') = [mkResume PTRACE_CONT 1000 0 1000].
Proof.
  split.
  - exact (proj1 (proj2 (proj2 (getNextEvent_failures (P := Linux.recent)
                                  1000 false Linux.wait_fails))
                        (freshState 1000) _ [] eq_refl eq_refl eq_refl)).
  - destruct (proj1 (proj2 (getNextEvent_failures (P := Linux.recent)
                              1000 false (Linux.boot 0 1000 [])))
                    (freshState 1000) eq_refl eq_refl)
      as (w' & Hrun & Hlog & _).
    exists w'. split; [exact Hrun | exact Hlog].
Defined.

(** The parent 1000 is killed while it is on top of the ancestor stack:
    its State is erased, it is popped as the next tracee to resume, and
    the run ends in [out_of_range]. *)
Lemma exit_of_stack_top_fails_witness :
  runProgram (P := Linux.recent) Linux.parent_killed_first
  = Halt out_of_range
         (final (runProgram (P := Linux.recent) Linux.parent_killed_first))
  ∧ ∃ w1, handleExit (final (handleFork (P := Linux.recent) ptraceEvent.fork
                               Linux.fork_event_first))
          = Ret tt w1
          ∧ nextPid (exe w1) = 1000
          ∧ states (exe w1) !! 1000 = None
          ∧ ∀ c, runIteration (P := Linux.recent) c w1 = Halt out_of_range w1.
Proof.
  split; [vm_compute; reflexivity |].
  destruct (exit_of_stack_top_fails (P := Linux.recent)
              (final (handleFork (P := Linux.recent) ptraceEvent.fork
                        Linux.fork_event_first))
              1000 [] eq_refl eq_refl)
    as (w1 & Hrun & Hnext & Hgone & _ & Hturn & _).
  exists w1. auto.
Defined.

(** The fork of 1001 by 1000, and then the exit of 1001. *)
Lemma fork_then_exit_round_trip_witness :
  handleFork (P := Linux.recent) ptraceEvent.fork Linux.fork_event_first
  = Ret tt (final (handleFork (P := Linux.recent) ptraceEvent.fork
                              Linux.fork_event_first))
  ∧ states (exe Linux.fork_event_first) !! 1001 = None
  ∧ ∃ w2, handleExit (stopped_as 1001
                        (final (handleFork (P := Linux.recent)
                                  ptraceEvent.fork Linux.fork_event_first)))
          = Ret tt w2
          ∧ states (exe w2) = states (exe Linux.fork_event_first)
          ∧ processHier (exe w2) = []
          ∧ nextPid (exe w2) = 1000.
Proof.
  split; [reflexivity |]. split; [reflexivity |].
  destruct (fork_then_exit_round_trip (P := Linux.recent) ptraceEvent.fork
              Linux.fork_event_first _ eq_refl eq_refl)
    as (parent & w2 & Hh & Hrun & Hst & Hstack & Hnext & _).
  exists w2. injection Hh as <-. auto.
Defined.

(** The first process of a run that only exits stays registered. *)
Lemma registry_entry_removed_only_at_exit_witness :
  is_Some (states (exe Linux.exit_only) !! 1000)
  ∧ (is_Some (states (exe (final (runIteration (P := Linux.recent) false
                                                Linux.exit_only))) !! 1000)
     ∨ 1000 = traceesPid (exe (final (runIteration (P := Linux.recent) false
                                                    Linux.exit_only)))
       ∧ processHier (exe Linux.exit_only) ≠ []
       ∧ ∃ e status w0,
           getNextEvent (P := Linux.recent) (nextPid (exe Linux.exit_only))
                        false Linux.exit_only
           = Ret (e, status) w0
           ∧ (e = ptraceEvent.exit ∨ e = ptraceEvent.terminatedBySignal)).
Proof.
  assert (H : is_Some (states (exe Linux.exit_only) !! 1000))
    by (exists (freshState 1000); reflexivity).
  split; [exact H |].
  exact (registry_entry_removed_only_at_exit (P := Linux.recent) false
           Linux.exit_only 1000 H).
Defined.

(** The child 1001 exits while a post-hook stop is requested: its parent
    1000 is resumed next, up to the exit of a system call. *)
Lemma callPostHook_carried_witness :
  ∃ w', dispatch (P := Linux.recent) ptraceEvent.exit (Linux.exited 0) true
          (stopped_as 1001
             (final (handleFork (P := Linux.recent) ptraceEvent.fork
                       Linux.fork_event_first)))
        = Ret true w'
        ∧ nextPid (exe w') = 1000
        ∧ ∃ newer,
            resumed (os (final (runIteration (P := Linux.recent) true w')))
            = newer ++ [mkResume PTRACE_SYSCALL 1000 0 1000].
Proof.
  destruct (proj2 (callPostHook_carried (P := Linux.recent) ptraceEvent.exit
                     (Linux.exited 0) true
                     (stopped_as 1001
                        (final (handleFork (P := Linux.recent)
                                  ptraceEvent.fork Linux.fork_event_first))))
                  (or_introl eq_refl) 1000 [] (freshState 1000) eq_refl
                  ltac:(simpl; lia) eq_refl)
    as (w' & Hrun & Hnext & newer & Hlog).
  exists w'. split; [exact Hrun |]. split; [exact Hnext |].
  exists newer. exact Hlog.
Defined.

(** The run of a tracee that only exits returns after one turn. *)
Lemma runLoop_returns_on_termination_witness :
  exitLoop (exe Linux.exit_only) = false
  ∧ runLoop (P := Linux.recent) 2 false Linux.exit_only
    = Some (Ret tt (final (runProgram (P := Linux.recent) Linux.exit_only)))
  ∧ processHier (exe (final (runProgram (P := Linux.recent)
                                        Linux.exit_only))) = []
  ∧ WIFEXITED (stop_status
                 (lastStop (os (final (runProgram (P := Linux.recent)
                                                  Linux.exit_only)))))
    = true.
Proof.
  split; [reflexivity |]. split; [reflexivity |].
  destruct (runLoop_returns_on_termination (P := Linux.recent) 2 false
              Linux.exit_only
              (final (runProgram (P := Linux.recent) Linux.exit_only))
              eq_refl eq_refl)
    as (Hstack & _ & _ & Hstatus).
  split; [exact Hstack | reflexivity].
Defined.

(** The run of a tracee that forks, on a recent kernel. *)
Lemma resumes_target_next_tracee_witness :
  oldKernel (platform := Linux.recent) = false
  ∧ resumed_next_only (Linux.fork_then_exit true)
      (final (runProgram (P := Linux.recent) (Linux.fork_then_exit true))).
Proof.
  split; [reflexivity |].
  exact (proj2 (resumes_target_next_tracee (P := Linux.recent) eq_refl)
               (Linux.fork_then_exit true)).
Defined.

(** The turn in which the only tracee exits leaves the empty stack empty. *)
Lemma stack_moves_by_one_witness :
  processHier (exe (final (runIteration (P := Linux.recent) false
                                        Linux.exit_only)))
  = processHier (exe Linux.exit_only)
  ∨ (∃ parent,
       processHier (exe (final (runIteration (P := Linux.recent) false
                                             Linux.exit_only)))
       = parent :: processHier (exe Linux.exit_only))
  ∨ (∃ top,
       processHier (exe Linux.exit_only)
       = top :: processHier (exe (final (runIteration (P := Linux.recent)
                                           false Linux.exit_only)))).
Proof.
  exact (stack_moves_by_one (P := Linux.recent) false Linux.exit_only).
Defined.

(** The run of a tracee that forks starts by resuming process 1000. *)
Lemma first_resume_is_starting_process_witness :
  ∃ newer,
    resumed (os (final (runProgram (P := Linux.recent)
                                   (Linux.fork_then_exit true))))
    = newer ++ [mkResume PTRACE_CONT 1000 0 1000].
Proof.
  exact (first_resume_is_starting_process (P := Linux.recent) 0 1000
           (os (Linux.fork_then_exit true))).
Defined.
